(** * The alert relay and responder-tracking hub of [server.js]

    A shallow embedding of the handlers of [src/server.js]: the two alert
    collections, the two connection-keyed [Map]s, the HTTP handlers and the
    socket handlers, over a small model of the JavaScript values and
    built-ins the handlers use ([||], [===], [parseFloat], [parseInt],
    [toUpperCase]).  Numbers are IEEE 754 binary64, as in JavaScript. *)

From Stdlib Require Import ZArith List String Ascii Bool Lia DecimalString.
From Stdlib Require Import Floats.
From Stdlib Require Import DecimalPos DecimalN.
Import ListNotations.

Local Open Scope string_scope.
Local Open Scope Z_scope.

(** ** JavaScript numbers *)

Module Num.

(** The Number value nearest to [m * 2^e] (ties to even). *)
Definition of_binary (m e : Z) : float :=
  SF2Prim (binary_normalize prec emax m e false).

(** The Number value nearest to [d * 10^x], for [0 <= d]: the quotient by
    a power of ten is taken with more than 64 bits and a sticky last bit,
    so that the rounding to 53 bits is the rounding of the exact value.
    From [10^310] on every positive value rounds to infinity, and below
    [10^-330] to zero ([d < 10^(log2 d + 1)]); those cases are answered
    without computing the power. *)
Definition of_decimal (d x : Z) : float :=
  if d =? 0 then zero
  else if x + Z.log2 d + 1 <=? -330 then zero
  else if 0 <=? x then
    if 310 <=? x then infinity else of_binary (d * 10 ^ x) 0
  else
    let p := 10 ^ (- x) in
    let s := Z.log2 p + 66 in
    let n := d * 2 ^ s in
    let q := n / p in
    let sticky := if n mod p =? 0 then 0 else 1 in
    of_binary (2 * q + sticky) (- s - 1).

Definition is_falsy (f : float) : bool := is_nan f || is_zero f.

(** [x === y] on numbers: NaN differs from itself, the two zeros are equal. *)
Definition strict_eq (x y : float) : bool := PrimFloat.eqb x y.

End Num.

(** ** JavaScript strings

    A string is its sequence of UTF-8 bytes. *)

Module Str.

Definition code (c : ascii) : Z := Z.of_N (N_of_ascii c).

Definition is_digit (c : ascii) : bool := (48 <=? code c) && (code c <=? 57).

(** The value of a digit in radix 16 (and so in radix 10). *)
Definition hex_value (c : ascii) : option Z :=
  let n := code c in
  if (48 <=? n) && (n <=? 57) then Some (n - 48)
  else if (97 <=? n) && (n <=? 102) then Some (n - 87)
  else if (65 <=? n) && (n <=? 70) then Some (n - 55)
  else None.

Definition is_radix_digit (radix : Z) (c : ascii) : bool :=
  match hex_value c with
  | Some v => v <? radix
  | None => false
  end.

(** The longest prefix whose characters satisfy [p], and the rest. *)
Fixpoint span (p : ascii -> bool) (s : string) : string * string :=
  match s with
  | String c r =>
      if p c then let (a, b) := span p r in (String c a, b) else (EmptyString, s)
  | EmptyString => (EmptyString, EmptyString)
  end.

(** The integer a string of digits denotes in the given radix. *)
Fixpoint digits_value (radix : Z) (acc : Z) (s : string) : Z :=
  match s with
  | String c r =>
      digits_value radix (acc * radix + match hex_value c with Some v => v | None => 0 end) r
  | EmptyString => acc
  end.

Definition of_nat_digits (z : Z) : string :=
  NilZero.string_of_uint (N.to_uint (Z.to_N z)).

Fixpoint zeros (n : nat) : string :=
  match n with
  | O => EmptyString
  | S m => String "0" (zeros m)
  end.

Fixpoint take (n : nat) (s : string) : string :=
  match n, s with
  | S m, String c r => String c (take m r)
  | _, _ => EmptyString
  end.

Fixpoint drop (n : nat) (s : string) : string :=
  match n, s with
  | S m, String _ r => drop m r
  | _, _ => s
  end.

Definition starts_with (p s : string) : bool := String.prefix p s.

(** [StrWhiteSpaceChar] of ECMA-262: TAB, LF, VT, FF, CR, SP, and, in their
    UTF-8 encodings, U+00A0, U+1680, U+2000 to U+200A, U+2028, U+2029,
    U+202F, U+205F, U+3000 and U+FEFF. *)
Definition is_ascii_space (c : ascii) : bool :=
  let n := code c in ((9 <=? n) && (n <=? 13)) || (n =? 32).

Definition is_space3 (a b c : ascii) : bool :=
  let '(x, y, z) := (code a, code b, code c) in
  ((x =? 225) && (y =? 154) && (z =? 128))
  || ((x =? 226) && (y =? 128)
      && (((128 <=? z) && (z <=? 138)) || (z =? 168) || (z =? 169) || (z =? 175)))
  || ((x =? 226) && (y =? 129) && (z =? 159))
  || ((x =? 227) && (y =? 128) && (z =? 128))
  || ((x =? 239) && (y =? 187) && (z =? 191)).

Fixpoint trimStart (s : string) : string :=
  match s with
  | String a r1 =>
      if is_ascii_space a then trimStart r1
      else
        match r1 with
        | String b r2 =>
            if (code a =? 194) && (code b =? 160) then trimStart r2
            else
              match r2 with
              | String c r3 => if is_space3 a b c then trimStart r3 else s
              | EmptyString => s
              end
        | EmptyString => s
        end
  | EmptyString => s
  end.

(** [String.prototype.toUpperCase] on the ASCII letters; the other bytes
    (the code points above U+007F) are kept as they are.  This is the
    method's result on a string of ASCII characters; the method itself also
    maps the letters above U+007F, and can lengthen the string. *)
Definition upper_char (c : ascii) : ascii :=
  let n := code c in
  if (97 <=? n) && (n <=? 122) then ascii_of_N (Z.to_N (n - 32)) else c.

Fixpoint toUpperCase (s : string) : string :=
  match s with
  | String c r => String (upper_char c) (toUpperCase r)
  | EmptyString => EmptyString
  end.

End Str.

(** ** Number to string *)

Module Conv.

(** *** [Number::toString] (radix 10)

    A positive finite Number is [m * 2^e]; [num / den] is that rational. *)
Definition num_of (m : positive) (e : Z) : Z := if 0 <=? e then Zpos m * 2 ^ e else Zpos m.
Definition den_of (e : Z) : Z := if 0 <=? e then 1 else 2 ^ (- e).

(** [num / den < 10^n] *)
Definition below_pow10 (num den n : Z) : bool :=
  if 0 <=? n then num <? 10 ^ n * den else num * 10 ^ (- n) <? den.

Fixpoint first_above (fuel : nat) (num den n : Z) : Z :=
  match fuel with
  | O => n
  | S f => if below_pow10 num den n then n else first_above f num den (n + 1)
  end.

(** The [n] with [10^(n-1) <= num/den < 10^n], searched upwards from an
    estimate below the decimal logarithm. *)
Definition decimal_exponent (m : positive) (e : Z) : Z :=
  let b := Z.log2 (Zpos m) + e in
  first_above 8 (num_of m e) (den_of e) (b * 30103 / 100000 - 1).

(** [floor (num/den * 10^t)] *)
Definition scaled_floor (num den t : Z) : Z :=
  if 0 <=? t then (num * 10 ^ t) / den else num / (den * 10 ^ (- t)).

(** Is [lo] at least as near to [num/den * 10^t] as [lo + 1]
    (on a tie: is [lo] even)? *)
Definition lo_is_nearer (num den t lo : Z) : bool :=
  let twice := if 0 <=? t then 2 * num * 10 ^ t else 2 * num in
  let mid := if 0 <=? t then (2 * lo + 1) * den else (2 * lo + 1) * den * 10 ^ (- t) in
  match twice ?= mid with
  | Lt => true
  | Gt => false
  | Eq => Z.even lo
  end.

(** The digits [s], their number [k] and the exponent [n] of step 5 of
    [Number::toString]: [k] is the least number of digits for which some
    [s * 10^(n-k)] has [f] as its Number value. *)
Fixpoint shortest (fuel : nat) (f : float) (num den n0 k : Z) : Z * Z * Z :=
  let t := k - n0 in
  let lo := scaled_floor num den t in
  let hi := lo + 1 in
  let lo_ok := PrimFloat.eqb (Num.of_decimal lo (- t)) f in
  let hi_ok := PrimFloat.eqb (Num.of_decimal hi (- t)) f in
  let pick_hi := if hi =? 10 ^ k then (10 ^ (k - 1), k, n0 + 1) else (hi, k, n0) in
  match fuel with
  | O => (lo, k, n0)
  | S fuel' =>
      if lo_ok && hi_ok then
        if lo_is_nearer num den t lo then (lo, k, n0) else pick_hi
      else if lo_ok then (lo, k, n0)
      else if hi_ok then pick_hi
      else shortest fuel' f num den n0 (k + 1)
  end.

(** Steps 6 to 10 of [Number::toString]. *)
Definition format (s k n : Z) : string :=
  let digits := Str.of_nat_digits s in
  if (k <=? n) && (n <=? 21) then
    digits ++ Str.zeros (Z.to_nat (n - k))
  else if (0 <? n) && (n <=? 21) then
    Str.take (Z.to_nat n) digits ++ "." ++ Str.drop (Z.to_nat n) digits
  else if (-6 <? n) && (n <=? 0) then
    "0." ++ Str.zeros (Z.to_nat (- n)) ++ digits
  else
    let e := n - 1 in
    let tail := "e" ++ (if e <? 0 then "-" else "+") ++ Str.of_nat_digits (Z.abs e) in
    if k =? 1 then digits ++ tail
    else Str.take 1 digits ++ "." ++ Str.drop 1 digits ++ tail.

Definition number_to_string (f : float) : string :=
  match Prim2SF f with
  | S754_nan => "NaN"
  | S754_zero _ => "0"
  | S754_infinity s => (if s then "-" else "") ++ "Infinity"
  | S754_finite s m e =>
      let '(d, k, n) :=
        shortest 20 (abs f) (num_of m e) (den_of e) (decimal_exponent m e) 1 in
      (if s then "-" else "") ++ format d k n
  end.

End Conv.

(** ** JavaScript values

    The fields of a request body or of an event payload are JSON primitives
    or absent (the spec's flat record of untyped fields); an absent property
    reads as [undefined].  A field that holds an array or an object is not
    modelled: on such a value [ToString], and with it [parseFloat],
    [parseInt] and a template literal, can throw. *)

Inductive value : Type :=
  | VUndefined
  | VNull
  | VBool (b : bool)
  | VNum (f : float)
  | VStr (s : string).

Module JS.

Definition ToString (v : value) : string :=
  match v with
  | VUndefined => "undefined"
  | VNull => "null"
  | VBool true => "true"
  | VBool false => "false"
  | VNum f => Conv.number_to_string f
  | VStr s => s
  end.

(** [ToBoolean]: [undefined], [null], [false], [NaN], the zeros and the
    empty string are falsy. *)
Definition truthy (v : value) : bool :=
  match v with
  | VUndefined | VNull => false
  | VBool b => b
  | VNum f => negb (Num.is_falsy f)
  | VStr s => negb (String.eqb s "")
  end.

(** [a || b] *)
Definition or (a b : value) : value := if truthy a then a else b.

(** [a === b] *)
Definition strict_eq (a b : value) : bool :=
  match a, b with
  | VUndefined, VUndefined => true
  | VNull, VNull => true
  | VBool x, VBool y => Bool.eqb x y
  | VNum x, VNum y => Num.strict_eq x y
  | VStr x, VStr y => String.eqb x y
  | _, _ => false
  end.

(** A leading sign, as [parseFloat] and [parseInt] read it. *)
Definition read_sign (s : string) : bool * string :=
  match s with
  | String "-" r => (true, r)
  | String "+" r => (false, r)
  | _ => (false, s)
  end.

Definition with_sign (neg : bool) (f : float) : float := if neg then (- f)%float else f.

(** The exponent part [e], [e+] or [e-] followed by digits; absent or
    without digits it is not part of the literal. *)
Definition read_exponent (s : string) : Z :=
  match s with
  | String c r =>
      if (Ascii.eqb c "e" || Ascii.eqb c "E")%bool then
        let (neg, r') := read_sign r in
        let (ds, _) := Str.span Str.is_digit r' in
        if String.eqb ds "" then 0
        else if neg then - Str.digits_value 10 0 ds else Str.digits_value 10 0 ds
      else 0
  | EmptyString => 0
  end.

(** [parseFloat] on a string: leading white space is skipped and the
    longest prefix that is a [StrDecimalLiteral] is converted; [NaN] when
    there is none. *)
Definition parseFloat_string (s : string) : float :=
  let (neg, u) := read_sign (Str.trimStart s) in
  if Str.starts_with "Infinity" u then with_sign neg infinity
  else
    let (ip, r1) := Str.span Str.is_digit u in
    let (fp, r2) :=
      match r1 with
      | String "." r => Str.span Str.is_digit r
      | _ => (EmptyString, r1)
      end in
    if String.eqb ip "" && String.eqb fp "" then nan
    else
      let d := Str.digits_value 10 0 (ip ++ fp) in
      let x := read_exponent r2 - Z.of_nat (String.length fp) in
      with_sign neg (Num.of_decimal d x).

(** [parseInt] on a string, no radix given: radix 16 after [0x] or [0X],
    radix 10 otherwise; [NaN] when no digit follows. *)
Definition parseInt_string (s : string) : float :=
  let (neg, u) := read_sign (Str.trimStart s) in
  let (radix, body) :=
    if Str.starts_with "0x" u || Str.starts_with "0X" u
    then (16, Str.drop 2 u) else (10, u) in
  let (ds, _) := Str.span (Str.is_radix_digit radix) body in
  if String.eqb ds "" then nan
  else with_sign neg (Num.of_binary (Str.digits_value radix 0 ds) 0).

Definition parseFloat (v : value) : float := parseFloat_string (ToString v).
Definition parseInt (v : value) : float := parseInt_string (ToString v).

End JS.

(** ** Objects and Maps *)

(** A plain object: its own properties in insertion order. *)
Definition obj : Type := list (string * value).

Module Obj.

(** [o.k]; an absent property reads as [undefined]. *)
Fixpoint get (o : obj) (k : string) : value :=
  match o with
  | [] => VUndefined
  | (k', v) :: r => if String.eqb k k' then v else get r k
  end.

(** [o.k = v]: an existing property keeps its place, a new one goes last. *)
Fixpoint set (o : obj) (k : string) (v : value) : obj :=
  match o with
  | [] => [(k, v)]
  | (k', v') :: r => if String.eqb k k' then (k, v) :: r else (k', v') :: set r k v
  end.

(** [{ ...base, ...o }] *)
Definition spread (base o : obj) : obj :=
  fold_left (fun acc kv => set acc (fst kv) (snd kv)) o base.

End Obj.

(** A [Map] keyed by strings: its entries in insertion order. *)
Module JSMap.
Section WithValues.
Context {V : Type}.

Definition t : Type := list (string * V).

Fixpoint get (m : t) (k : string) : option V :=
  match m with
  | [] => None
  | (k', v) :: r => if String.eqb k k' then Some v else get r k
  end.

(** [m.set(k, v)]: a present key keeps its place, a new one goes last. *)
Fixpoint set (m : t) (k : string) (v : V) : t :=
  match m with
  | [] => [(k, v)]
  | (k', v') :: r => if String.eqb k k' then (k, v) :: r else (k', v') :: set r k v
  end.

(** [m.delete(k)] *)
Definition delete (m : t) (k : string) : t :=
  filter (fun kv => negb (String.eqb k (fst kv))) m.

Definition keys (m : t) : list string := map fst m.
Definition values (m : t) : list V := map snd m.
Definition entries (m : t) : list (string * V) := m.

End WithValues.
Arguments t : clear implicits.
End JSMap.

(** ** The server's state, inputs and outputs *)

#[local] Set Warnings "-inexact-float".

Definition API_KEY : string := "secure_key_123".
Definition MAX_ALERTS : nat := 200.

(** The fallback coordinate, the literals [11.1085] and [77.3411] of the source. *)
Definition FALLBACK_LAT : float := 11.1085%float.
Definition FALLBACK_LNG : float := 77.3411%float.

Record state : Type := {
  cameraAlerts : list obj;
  sosAlerts : list obj;
  activeTracking : JSMap.t obj;
  connectedOfficers : JSMap.t obj
}.

(** The state at start-up. *)
Definition init : state :=
  {| cameraAlerts := []; sosAlerts := []; activeTracking := []; connectedOfficers := [] |}.

Definition with_cameraAlerts (st : state) (l : list obj) : state :=
  {| cameraAlerts := l; sosAlerts := sosAlerts st;
     activeTracking := activeTracking st; connectedOfficers := connectedOfficers st |}.

Definition with_sosAlerts (st : state) (l : list obj) : state :=
  {| cameraAlerts := cameraAlerts st; sosAlerts := l;
     activeTracking := activeTracking st; connectedOfficers := connectedOfficers st |}.

Definition with_activeTracking (st : state) (m : JSMap.t obj) : state :=
  {| cameraAlerts := cameraAlerts st; sosAlerts := sosAlerts st;
     activeTracking := m; connectedOfficers := connectedOfficers st |}.

Definition with_connectedOfficers (st : state) (m : JSMap.t obj) : state :=
  {| cameraAlerts := cameraAlerts st; sosAlerts := sosAlerts st;
     activeTracking := activeTracking st; connectedOfficers := m |}.

(** What a handler reads from its environment: [Date.now()], the suffix
    [Math.random().toString(36).substr(2, 9)], and the current time as
    [new Date().toISOString()] renders it, once where the handler stamps a
    time ([time], [respondedAt], [loginTime], [startTime]) and once more for
    [receivedAt].  A [Date] kept in the state is kept as that rendering,
    which is what its readers get. *)
Record env : Type := {
  date_now : N;
  random36 : string;
  iso_now : string;
  iso_received : string
}.

(** An exception of the runtime; the handlers can only raise [TypeError]. *)
Inductive exn : Type := TypeError.

Inductive result (A : Type) : Type :=
  | Ok (a : A)
  | Throw (e : exn).
Arguments Ok {A} a.
Arguments Throw {A} e.

Definition bind {A B : Type} (r : result A) (k : A -> result B) : result B :=
  match r with
  | Ok a => k a
  | Throw e => Throw e
  end.

Notation "x <- r ;; k" := (bind r (fun x => k))
  (at level 61, r at next level, right associativity).

(** The JSON body of a response. *)
Inductive body : Type :=
  | Failure (message : string)              (* { success: false, message } *)
  | FailureOf (error : exn)                 (* { success: false, message: error.message } *)
  | Success (alert : obj)                   (* { success: true, alert } *)
  | Cleared (cleared : nat) (type : string) (* { success: true, cleared, type } *).

Record response : Type := { status : nat; json : body }.

(** [socket.emit] reaches one connection, [io.emit] all of them. *)
Inductive dest : Type :=
  | ToSocket (id : string)
  | ToAll.

Inductive message : Type :=
  | all_camera_alerts (alerts : list obj)
  | all_sos_alerts (alerts : list obj)
  | officers_updated (officers : list obj)
  | tracking_started (alertId : value)
  | tracking_update (officerId : string) (trackingData : obj)
  | tracking_stopped (officerId : string)
  | new_camera_alert (alert : obj)
  | new_sos_alert (alert : obj)
  | alert_resolved (alert : obj) (alertType : value)
  | camera_alerts_cleared
  | sos_alerts_cleared
  | all_alerts_cleared.

Definition event : Type := dest * message.

(** The argument of a socket event: an object, or a primitive (no argument
    is [undefined]). *)
Inductive arg : Type :=
  | APrim (v : value)
  | AObj (o : obj).

(** [a.k] for the property names the handlers read: a [TypeError] on
    [undefined] and [null], [undefined] on the other primitives (none of
    the names is a property of a boolean, a number or a string). *)
Definition member (a : arg) (k : string) : result value :=
  match a with
  | AObj o => Ok (Obj.get o k)
  | APrim VUndefined | APrim VNull => Throw TypeError
  | APrim _ => Ok VUndefined
  end.

(** [v.toUpperCase()]: only a string has the method. *)
Definition call_toUpperCase (v : value) : result string :=
  match v with
  | VStr s => Ok (Str.toUpperCase s)
  | _ => Throw TypeError
  end.

(** ** Array operations the handlers use *)

(** [alerts.findIndex(p)]; [None] is the source's [-1]. *)
Fixpoint findIndex {A : Type} (p : A -> bool) (l : list A) : option nat :=
  match l with
  | [] => None
  | x :: r => if p x then Some O else option_map S (findIndex p r)
  end.

(** The array after a mutation of its element [i]. *)
Fixpoint update_nth {A : Type} (i : nat) (x : A) (l : list A) : list A :=
  match l, i with
  | [], _ => []
  | _ :: r, O => x :: r
  | y :: r, S j => y :: update_nth j x r
  end.

(** [alerts.unshift(alert); if (alerts.length > MAX_ALERTS) alerts.pop();] *)
Definition store_alert (alert : obj) (alerts : list obj) : list obj :=
  let alerts' := alert :: alerts in
  if Nat.ltb MAX_ALERTS (List.length alerts') then removelast alerts' else alerts'.

(** ** The HTTP handlers

    The [console.log] lines are left out: on the values modelled they
    change neither the state nor the reply. *)

Definition respond (code : nat) (b : body) : response := {| status := code; json := b |}.

Definition alert_id (prefix : string) (e : env) : string :=
  prefix ++ Str.of_nat_digits (Z.of_N (date_now e)) ++ "-" ++ random36 e.

(** The alert object of [POST /send-alert]. *)
Definition camera_alert (e : env) (a : obj) : result obj :=
  severity <- call_toUpperCase (JS.or (Obj.get a "severity") (VStr "MEDIUM")) ;;
  Ok [ ("id", VStr (alert_id "CAM-ALERT-" e));
       ("type", VStr "camera");
       ("severity", VStr severity);
       ("place", JS.or (Obj.get a "place") (VStr "Unknown Location"));
       ("alertType", JS.or (Obj.get a "type") (VStr "Safety Alert"));
       ("cameraId", JS.or (Obj.get a "cameraId") (VStr "CAM-000"));
       ("description", JS.or (Obj.get a "description") (VStr "No details"));
       ("lat", JS.or (VNum (JS.parseFloat (Obj.get a "lat"))) (VNum FALLBACK_LAT));
       ("lng", JS.or (VNum (JS.parseFloat (Obj.get a "lng"))) (VNum FALLBACK_LNG));
       ("time", JS.or (Obj.get a "time") (VStr (iso_now e)));
       ("snippet", JS.or (Obj.get a "snippet") VNull);
       ("personCount", JS.or (VNum (JS.parseInt (Obj.get a "personCount"))) (VNum 0));
       ("threatLevel", JS.or (Obj.get a "threatLevel") (VStr "unknown"));
       ("riskFactors", JS.or (Obj.get a "riskFactors") (VStr "None"));
       ("motionIntensity", JS.or (VNum (JS.parseFloat (Obj.get a "motionIntensity"))) (VNum 0));
       ("lighting", JS.or (Obj.get a "lighting") (VStr "Unknown"));
       ("brightnessLevel", JS.or (VNum (JS.parseInt (Obj.get a "brightnessLevel"))) (VNum 0));
       ("behavior", JS.or (JS.or (Obj.get a "behavior") (Obj.get a "threatLevel")) (VStr "suspicious"));
       ("status", VStr "active");
       ("receivedAt", VStr (iso_received e));
       ("respondedBy", VNull);
       ("respondedAt", VNull) ].

(** [POST /send-alert]: [apiKey] is the [x-api-key] header, [a] the body. *)
Definition send_alert (e : env) (apiKey : value) (a : obj) (st : state)
  : state * response * list event :=
  if negb (JS.strict_eq apiKey (VStr API_KEY)) then
    (st, respond 403 (Failure "Unauthorized: Invalid API key"), [])
  else
    match camera_alert e a with
    | Ok alert =>
        (with_cameraAlerts st (store_alert alert (cameraAlerts st)),
         respond 200 (Success alert),
         [(ToAll, new_camera_alert alert)])
    | Throw error => (st, respond 500 (FailureOf error), [])
    end.

(** The alert object of [POST /send-sos-alert]. *)
Definition sos_alert (e : env) (a : obj) : result obj :=
  Ok [ ("id", VStr (alert_id "SOS-ALERT-" e));
       ("type", VStr "sos");
       ("severity", VStr "CRITICAL");
       ("place", JS.or (Obj.get a "place") (VStr "Unknown Location"));
       ("alertType", VStr "SOS Emergency");
       ("userName", JS.or (Obj.get a "userName") (VStr "Anonymous"));
       ("userPhone", JS.or (Obj.get a "userPhone") (VStr "N/A"));
       ("description", JS.or (Obj.get a "description") (VStr "SOS button pressed"));
       ("lat", JS.or (VNum (JS.parseFloat (Obj.get a "lat"))) (VNum FALLBACK_LAT));
       ("lng", JS.or (VNum (JS.parseFloat (Obj.get a "lng"))) (VNum FALLBACK_LNG));
       ("time", JS.or (Obj.get a "time") (VStr (iso_now e)));
       ("status", VStr "active");
       ("receivedAt", VStr (iso_received e)) ].

(** [POST /send-sos-alert] *)
Definition send_sos_alert (e : env) (apiKey : value) (a : obj) (st : state)
  : state * response * list event :=
  if negb (JS.strict_eq apiKey (VStr API_KEY)) then
    (st, respond 403 (Failure "Unauthorized"), [])
  else
    match sos_alert e a with
    | Ok alert =>
        (with_sosAlerts st (store_alert alert (sosAlerts st)),
         respond 200 (Success alert),
         [(ToAll, new_sos_alert alert)])
    | Throw error => (st, respond 500 (FailureOf error), [])
    end.

(** The collection [POST /resolve-alert] selects. *)
Definition selected (alertType : value) (st : state) : list obj :=
  if JS.strict_eq alertType (VStr "sos") then sosAlerts st else cameraAlerts st.

Definition with_selected (alertType : value) (st : state) (l : list obj) : state :=
  if JS.strict_eq alertType (VStr "sos") then with_sosAlerts st l else with_cameraAlerts st l.

(** [alert.status = 'resolved'; alert.respondedAt = new Date().toISOString();] *)
Definition mark_resolved (e : env) (alert : obj) : obj :=
  Obj.set (Obj.set alert "status" (VStr "resolved")) "respondedAt" (VStr (iso_now e)).

(** [POST /resolve-alert] *)
Definition resolve_alert (e : env) (b : obj) (st : state)
  : state * response * list event :=
  let alertId := Obj.get b "alertId" in
  let alertType := Obj.get b "alertType" in
  let alerts := selected alertType st in
  match findIndex (fun a => JS.strict_eq (Obj.get a "id") alertId) alerts with
  | None => (st, respond 404 (Failure "Alert not found"), [])
  | Some index =>
      let alert := mark_resolved e (nth index alerts []) in
      (with_selected alertType st (update_nth index alert alerts),
       respond 200 (Success alert),
       [(ToAll, alert_resolved alert alertType)])
  end.

(** [POST /clear-alerts] *)
Definition clear_alerts (b : obj) (st : state) : state * response * list event :=
  let alertType := Obj.get b "alertType" in
  if JS.strict_eq alertType (VStr "camera") then
    let count := List.length (cameraAlerts st) in
    (with_cameraAlerts st [],
     respond 200 (Cleared count "camera"),
     [(ToAll, camera_alerts_cleared)])
  else if JS.strict_eq alertType (VStr "sos") then
    let count := List.length (sosAlerts st) in
    (with_sosAlerts st [],
     respond 200 (Cleared count "sos"),
     [(ToAll, sos_alerts_cleared)])
  else
    let totalCount := (List.length (cameraAlerts st) + List.length (sosAlerts st))%nat in
    (with_sosAlerts (with_cameraAlerts st []) [],
     respond 200 (Cleared totalCount "all"),
     [(ToAll, all_alerts_cleared)]).

(** [GET /tracking-data]: the sessions and the presences, each tagged with
    its connection id. *)
Definition tracking_data (st : state) : list obj * list obj :=
  (map (fun kv => Obj.spread [("officerId", VStr (fst kv))] (snd kv))
       (JSMap.entries (activeTracking st)),
   map (fun kv => Obj.spread [("id", VStr (fst kv))] (snd kv))
       (JSMap.entries (connectedOfficers st))).

(** ** The socket handlers; [id] is [socket.id] *)

(** [io.on('connection')]: the snapshots go to the new connection. *)
Definition connection (id : string) (st : state) : state * list event :=
  (st, [(ToSocket id, all_camera_alerts (cameraAlerts st));
        (ToSocket id, all_sos_alerts (sosAlerts st))]).

(** [socket.on('officer_login')] *)
Definition officer_login (e : env) (id : string) (officer : arg) (st : state)
  : result (state * list event) :=
  name <- member officer "name" ;;
  lat <- member officer "lat" ;;
  lng <- member officer "lng" ;;
  unit <- member officer "unit" ;;
  let officers :=
    JSMap.set (connectedOfficers st) id
      [ ("name", JS.or name (VStr "Officer"));
        ("lat", JS.or lat (VNum FALLBACK_LAT));
        ("lng", JS.or lng (VNum FALLBACK_LNG));
        ("unit", JS.or unit (VStr "Unit-01"));
        ("status", VStr "available");
        ("loginTime", VStr (iso_now e)) ] in
  Ok (with_connectedOfficers st officers,
      [(ToAll, officers_updated (JSMap.values officers))]).

(** [officer?.k] *)
Definition optional_get (officer : option obj) (k : string) : value :=
  match officer with
  | Some o => Obj.get o k
  | None => VUndefined
  end.

(** The session object of [start_tracking]. *)
Definition tracking_session (e : env) (officer : option obj)
  (alertId alertLat alertLng alertType : value) : obj :=
  [ ("alertId", alertId);
    ("alertLat", VNum (JS.parseFloat alertLat));
    ("alertLng", VNum (JS.parseFloat alertLng));
    ("alertType", JS.or alertType (VStr "camera"));
    ("officerLat", JS.or (optional_get officer "lat") (VNum FALLBACK_LAT));
    ("officerLng", JS.or (optional_get officer "lng") (VNum FALLBACK_LNG));
    ("startTime", VStr (iso_now e));
    ("status", VStr "tracking") ].

(** [socket.on('start_tracking')] *)
Definition start_tracking (e : env) (id : string) (data : arg) (st : state)
  : result (state * list event) :=
  alertId <- member data "alertId" ;;
  alertLat <- member data "alertLat" ;;
  alertLng <- member data "alertLng" ;;
  alertType <- member data "alertType" ;;
  let officer := JSMap.get (connectedOfficers st) id in
  let session := tracking_session e officer alertId alertLat alertLng alertType in
  Ok (with_activeTracking st (JSMap.set (activeTracking st) id session),
      [(ToSocket id, tracking_started alertId);
       (ToAll, tracking_update id session)]).

(** [socket.on('update_location')]; the [has] tests and the [get]s that
    follow them are the two matches. *)
Definition update_location (id : string) (location : arg) (st : state)
  : result (state * list event) :=
  match JSMap.get (connectedOfficers st) id with
  | Some officer =>
      lat <- member location "lat" ;;
      lng <- member location "lng" ;;
      let officer := Obj.set officer "lat" (VNum (JS.parseFloat lat)) in
      let officer := Obj.set officer "lng" (VNum (JS.parseFloat lng)) in
      let st := with_connectedOfficers st (JSMap.set (connectedOfficers st) id officer) in
      match JSMap.get (activeTracking st) id with
      | Some tracking =>
          let tracking := Obj.set tracking "officerLat" (VNum (JS.parseFloat lat)) in
          let tracking := Obj.set tracking "officerLng" (VNum (JS.parseFloat lng)) in
          Ok (with_activeTracking st (JSMap.set (activeTracking st) id tracking),
              [(ToAll, tracking_update id tracking)])
      | None => Ok (st, [])
      end
  | None => Ok (st, [])
  end.

(** [socket.on('stop_tracking')] *)
Definition stop_tracking (id : string) (st : state) : state * list event :=
  (with_activeTracking st (JSMap.delete (activeTracking st) id),
   [(ToAll, tracking_stopped id)]).

(** [socket.on('disconnect')] *)
Definition disconnect (id : string) (st : state) : state * list event :=
  (with_activeTracking
     (with_connectedOfficers st (JSMap.delete (connectedOfficers st) id))
     (JSMap.delete (activeTracking st) id),
   []).

(** ** The server as a transition system

    The handlers run to completion one after the other.  An exception in a
    socket handler is not caught by the source, and Node then ends the
    process unless told otherwise; on the payloads modelled the handler
    has changed nothing by then.  A step reports the exception in its
    output and keeps the state, so the states [run] reaches include every
    state of the living process. *)

Inductive input : Type :=
  | PostSendAlert (apiKey : value) (a : obj)
  | PostSendSosAlert (apiKey : value) (a : obj)
  | PostResolveAlert (b : obj)
  | PostClearAlerts (b : obj)
  | Connection (id : string)
  | OfficerLogin (id : string) (officer : arg)
  | StartTracking (id : string) (data : arg)
  | UpdateLocation (id : string) (location : arg)
  | StopTracking (id : string)
  | Disconnect (id : string).

Record output : Type := {
  reply : option response;
  emitted : list event;
  uncaught : option exn
}.

Definition of_http (r : state * response * list event) : state * output :=
  let '(st, res, evs) := r in
  (st, {| reply := Some res; emitted := evs; uncaught := None |}).

Definition of_socket (st : state) (r : result (state * list event)) : state * output :=
  match r with
  | Ok (st', evs) => (st', {| reply := None; emitted := evs; uncaught := None |})
  | Throw error => (st, {| reply := None; emitted := []; uncaught := Some error |})
  end.

Definition step (e : env) (i : input) (st : state) : state * output :=
  match i with
  | PostSendAlert apiKey a => of_http (send_alert e apiKey a st)
  | PostSendSosAlert apiKey a => of_http (send_sos_alert e apiKey a st)
  | PostResolveAlert b => of_http (resolve_alert e b st)
  | PostClearAlerts b => of_http (clear_alerts b st)
  | Connection id => of_socket st (Ok (connection id st))
  | OfficerLogin id officer => of_socket st (officer_login e id officer st)
  | StartTracking id data => of_socket st (start_tracking e id data st)
  | UpdateLocation id location => of_socket st (update_location id location st)
  | StopTracking id => of_socket st (Ok (stop_tracking id st))
  | Disconnect id => of_socket st (Ok (disconnect id st))
  end.

(** The state after a sequence of inputs, each with what its handler reads
    from the environment. *)
Fixpoint run (st : state) (steps : list (env * input)) : state :=
  match steps with
  | [] => st
  | (e, i) :: rest => run (fst (step e i st)) rest
  end.

(** An ingestion request: the environment, the credential header, the body. *)
Inductive ingestion : Type :=
  | Camera (e : env) (apiKey : value) (a : obj)
  | Sos (e : env) (apiKey : value) (a : obj).

Definition ingestion_step (r : ingestion) : env * input :=
  match r with
  | Camera e k a => (e, PostSendAlert k a)
  | Sos e k a => (e, PostSendSosAlert k a)
  end.

(** The alerts a sequence of ingestion requests inserts into the camera
    collection, oldest first: those of the camera requests that pass the
    credential check and whose alert object is built. *)
Definition camera_insertions (reqs : list ingestion) : list obj :=
  flat_map (fun r =>
    match r with
    | Camera e k a =>
        if JS.strict_eq k (VStr API_KEY)
        then match camera_alert e a with Ok alert => [alert] | Throw _ => [] end
        else []
    | Sos _ _ _ => []
    end) reqs.

Definition sos_insertions (reqs : list ingestion) : list obj :=
  flat_map (fun r =>
    match r with
    | Sos e k a =>
        if JS.strict_eq k (VStr API_KEY)
        then match sos_alert e a with Ok alert => [alert] | Throw _ => [] end
        else []
    | Camera _ _ _ => []
    end) reqs.

(** ** Vocabulary of the statements *)

(** Both collections are within the cap. *)
Definition capped (st : state) : Prop :=
  (List.length (cameraAlerts st) <= MAX_ALERTS)%nat
  /\ (List.length (sosAlerts st) <= MAX_ALERTS)%nat.

(** The collection [POST /resolve-alert] does not select. *)
Definition unselected (alertType : value) (st : state) : list obj :=
  if JS.strict_eq alertType (VStr "sos") then cameraAlerts st else sosAlerts st.

(** A lower-case ASCII letter. *)
Definition is_lower (c : ascii) : bool := (97 <=? Str.code c) && (Str.code c <=? 122).

(** No lower-case ASCII letter is left in the string. *)
Definition upper_cased (s : string) : Prop :=
  Forall (fun c => is_lower c = false) (list_ascii_of_string s).

(** Every character of the string is an ASCII character. *)
Definition ascii_only (s : string) : Prop :=
  Forall (fun c => Str.code c < 128) (list_ascii_of_string s).

(** ** The other queries *)

(** The body of [GET /alerts]. *)
Record alerts_report : Type := {
  camera_count : nat;
  camera_data : list obj;
  sos_count : nat;
  sos_data : list obj;
  tracking_sessions : list obj
}.

(** [GET /alerts] *)
Definition get_alerts (st : state) : alerts_report :=
  {| camera_count := List.length (cameraAlerts st);
     camera_data := cameraAlerts st;
     sos_count := List.length (sosAlerts st);
     sos_data := sosAlerts st;
     tracking_sessions := JSMap.values (activeTracking st) |}.

(** The body of [GET /health]. *)
Record health_report : Type := {
  health_status : string;
  uptime : float;
  cameraAlertCount : nat;
  sosAlertCount : nat;
  activeTrackingCount : nat;
  connectedOfficersCount : nat;
  connectedClients : nat;
  timestamp : string
}.

(** [GET /health]; [process.uptime()], [io.engine.clientsCount] and the
    current time are read from the runtime. *)
Definition health (process_uptime : float) (clientsCount : nat) (now : string) (st : state)
  : health_report :=
  {| health_status := "running";
     uptime := process_uptime;
     cameraAlertCount := List.length (cameraAlerts st);
     sosAlertCount := List.length (sosAlerts st);
     activeTrackingCount := List.length (JSMap.keys (activeTracking st));
     connectedOfficersCount := List.length (JSMap.keys (connectedOfficers st));
     connectedClients := clientsCount;
     timestamp := now |}.

(** ** Vocabulary of the further statements *)

(** The input is an HTTP request (and not a socket event). *)
Definition is_http (i : input) : bool :=
  match i with
  | PostSendAlert _ _ | PostSendSosAlert _ _ | PostResolveAlert _ | PostClearAlerts _ => true
  | _ => false
  end.

(** The connection a socket input comes from. *)
Definition sender (i : input) : option string :=
  match i with
  | Connection id | OfficerLogin id _ | StartTracking id _
  | UpdateLocation id _ | StopTracking id | Disconnect id => Some id
  | _ => None
  end.

(** A number that is neither [NaN] nor a zero. *)
Definition valid_coordinate (v : value) : bool :=
  match v with
  | VNum f => negb (Num.is_falsy f)
  | _ => false
  end.

(** A number that is not [NaN]. *)
Definition not_nan (v : value) : bool :=
  match v with
  | VNum f => negb (is_nan f)
  | _ => false
  end.

(** A string that starts with [prefix]. *)
Definition has_prefix (prefix : string) (v : value) : Prop :=
  exists rest, v = VStr (prefix ++ rest).

(** The alert is active and carries [unstamped] as its resolution stamp, or
    it is resolved and carries a string. *)
Definition status_consistent (unstamped : value) (a : obj) : Prop :=
  (Obj.get a "status" = VStr "active" /\ Obj.get a "respondedAt" = unstamped)
  \/ (Obj.get a "status" = VStr "resolved" /\ exists t, Obj.get a "respondedAt" = VStr t).

(** The text properties of a camera alert that a default backs. *)
Definition camera_text_fields : list string :=
  ["place"; "alertType"; "cameraId"; "description"; "threatLevel"; "riskFactors";
   "lighting"; "behavior"].

Definition camera_alert_ok (a : obj) : Prop :=
  Obj.get a "type" = VStr "camera"
  /\ has_prefix "CAM-ALERT-" (Obj.get a "id")
  /\ (exists s, Obj.get a "severity" = VStr s /\ upper_cased s)
  /\ valid_coordinate (Obj.get a "lat") = true
  /\ valid_coordinate (Obj.get a "lng") = true
  /\ not_nan (Obj.get a "personCount") = true
  /\ not_nan (Obj.get a "motionIntensity") = true
  /\ not_nan (Obj.get a "brightnessLevel") = true
  /\ Forall (fun k => JS.truthy (Obj.get a k) = true) camera_text_fields
  /\ status_consistent VNull a.

(** The text properties of an SOS alert that a default backs. *)
Definition sos_text_fields : list string :=
  ["place"; "alertType"; "userName"; "userPhone"; "description"].

Definition sos_alert_ok (a : obj) : Prop :=
  Obj.get a "type" = VStr "sos"
  /\ has_prefix "SOS-ALERT-" (Obj.get a "id")
  /\ Obj.get a "severity" = VStr "CRITICAL"
  /\ valid_coordinate (Obj.get a "lat") = true
  /\ valid_coordinate (Obj.get a "lng") = true
  /\ Forall (fun k => JS.truthy (Obj.get a k) = true) sos_text_fields
  /\ status_consistent VUndefined a.

(** The property names of a presence and of a session, in order. *)
Definition presence_keys : list string :=
  ["name"; "lat"; "lng"; "unit"; "status"; "loginTime"].

Definition session_keys : list string :=
  ["alertId"; "alertLat"; "alertLng"; "alertType"; "officerLat"; "officerLng";
   "startTime"; "status"].

(** An object after a position report: [o.klat = parseFloat(lat);
    o.klng = parseFloat(lng)]. *)
Definition moved (o : obj) (klat klng : string) (lat lng : value) : obj :=
  Obj.set (Obj.set o klat (VNum (JS.parseFloat lat))) klng (VNum (JS.parseFloat lng)).

(** The messages meant for one connection: the snapshots on connection and
    the acknowledgment of [start_tracking]. *)
Definition is_private (m : message) : bool :=
  match m with
  | all_camera_alerts _ | all_sos_alerts _ | tracking_started _ => true
  | _ => false
  end.

(** The values of a presence and of a session that no event changes. *)
Definition presence_fixed (o : obj) : Prop :=
  Obj.get o "status" = VStr "available"
  /\ JS.truthy (Obj.get o "name") = true
  /\ JS.truthy (Obj.get o "unit") = true.

Definition session_fixed (o : obj) : Prop :=
  Obj.get o "status" = VStr "tracking"
  /\ (exists f, Obj.get o "alertLat" = VNum f)
  /\ (exists f, Obj.get o "alertLng" = VNum f)
  /\ JS.truthy (Obj.get o "alertType") = true.

Definition entries_fixed (st : state) : Prop :=
  Forall (fun kv => presence_fixed (snd kv)) (connectedOfficers st)
  /\ Forall (fun kv => session_fixed (snd kv)) (activeTracking st).

(** What holds of every state the server reaches. *)
Record well_formed (st : state) : Prop := {
  wf_camera : Forall camera_alert_ok (cameraAlerts st);
  wf_sos : Forall sos_alert_ok (sosAlerts st);
  wf_officer_keys : NoDup (JSMap.keys (connectedOfficers st));
  wf_tracking_keys : NoDup (JSMap.keys (activeTracking st));
  wf_presences : Forall (fun kv => map fst (snd kv) = presence_keys) (connectedOfficers st);
  wf_sessions : Forall (fun kv => map fst (snd kv) = session_keys) (activeTracking st)
}.

(** ** A scenario

    Concrete requests and events, on which the statements below are run. *)

Module Sample.

Definition e0 : env :=
  {| date_now := 1700000000000; random36 := "k3j9x0a1b";
     iso_now := "2023-11-14T22:13:20.000Z";
     iso_received := "2023-11-14T22:13:20.001Z" |}.

Definition e1 : env :=
  {| date_now := 1700000060000; random36 := "z81hq2m4c";
     iso_now := "2023-11-14T22:14:20.000Z";
     iso_received := "2023-11-14T22:14:20.002Z" |}.

(** The body of the end-to-end example of the spec. *)
Definition main_st : obj :=
  [("place", VStr "Main St"); ("severity", VStr "high");
   ("lat", VStr "12.1"); ("lng", VStr "77.2")].

Definition main_st_id : string := "CAM-ALERT-1700000000000-k3j9x0a1b".

Definition sos_body : obj := [("userName", VStr "Meena"); ("severity", VStr "low")].

Definition officer1 : obj :=
  [("name", VStr "Asha"); ("lat", VNum 11.02); ("lng", VNum 76.95); ("unit", VStr "Unit-07")].

Definition track1 : obj :=
  [("alertId", VStr main_st_id); ("alertLat", VStr "12.1"); ("alertLng", VStr "77.2");
   ("alertType", VStr "camera")].

(** One alert stored and resolvable. *)
Definition with_alert : state :=
  run init [(e0, PostSendAlert (VStr API_KEY) main_st);
            (e0, PostSendSosAlert (VStr API_KEY) sos_body)].

(** Two officers logged in; the first is tracking. *)
Definition tracking : state :=
  run init [(e0, OfficerLogin "sock-1" (AObj officer1));
            (e0, OfficerLogin "sock-2" (AObj []));
            (e0, StartTracking "sock-1" (AObj track1))].

(** The first officer has reported the position (0, 0). *)
Definition at_origin : state :=
  run init [(e0, OfficerLogin "sock-1" (AObj officer1));
            (e0, UpdateLocation "sock-1" (AObj [("lat", VStr "0"); ("lng", VNum 0)]))].

(** [n] camera ingestions, the [k]-th of them for the place [k]. *)
Fixpoint camera_burst (n : nat) : list ingestion :=
  match n with
  | O => []
  | S m =>
      (camera_burst m
         ++ [Camera e0 (VStr API_KEY) [("place", VNum (PrimFloat.of_uint63 (Uint63.of_Z (Z.of_nat n))))]])%list
  end.

End Sample.

(** ** A second scenario

    A history with malformed requests and events in it. *)

Module Scenario.

Definition odd_camera : obj :=
  [("severity", VStr "critical"); ("lat", VStr "north"); ("lng", VNum 0);
   ("personCount", VStr "many"); ("motionIntensity", VNull); ("place", VStr "");
   ("threatLevel", VStr "high")].

Definition odd_sos : obj := [("lat", VStr "-0"); ("userName", VBool false)].

Definition history : list (env * input) :=
  [ (Sample.e0, Connection "sock-1");
    (Sample.e0, PostSendAlert (VStr API_KEY) odd_camera);
    (Sample.e0, PostSendAlert (VStr "guess") Sample.main_st);
    (Sample.e0, PostSendAlert (VStr API_KEY) [("severity", VNum 3)]);
    (Sample.e1, PostSendSosAlert (VStr API_KEY) odd_sos);
    (Sample.e1, PostSendAlert (VStr API_KEY) Sample.main_st);
    (Sample.e1, PostResolveAlert [("alertId", VStr "CAM-ALERT-1700000000000-k3j9x0a1b")]);
    (Sample.e0, OfficerLogin "sock-1" (AObj [("lat", VNum 0); ("lng", VStr "east")]));
    (Sample.e0, OfficerLogin "sock-2" (AObj Sample.officer1));
    (Sample.e0, StartTracking "sock-3" (AObj []));
    (Sample.e0, StartTracking "sock-1" (AObj Sample.track1));
    (Sample.e0, UpdateLocation "sock-1" (AObj [("lat", VStr "abc")]));
    (Sample.e1, OfficerLogin "sock-1" (AObj []));
    (Sample.e1, UpdateLocation "sock-9" (APrim VNull));
    (Sample.e1, OfficerLogin "sock-4" (APrim VUndefined));
    (Sample.e1, StopTracking "sock-2") ].

Definition reached : state := run init history.

End Scenario.

(** * Properties *)

(** ** Values *)

Lemma strict_eq_string (v : value) (s : string) :
  JS.strict_eq v (VStr s) = true <-> v = VStr s.
Proof.
  destruct v as [| |b|f|t]; simpl; split; intro H; try discriminate.
  - apply String.eqb_eq in H. now subst.
  - injection H as ->. apply String.eqb_refl.
Qed.

Lemma strict_eq_string_false (v : value) (s : string) :
  v <> VStr s -> JS.strict_eq v (VStr s) = false.
Proof.
  intro H. destruct (JS.strict_eq v (VStr s)) eqn:E; [|reflexivity].
  apply strict_eq_string in E. contradiction.
Qed.

(** ** The capped collections *)

Section Capped.
Context {A : Type}.

Lemma removelast_is_firstn (l : list A) :
  removelast l = firstn (pred (List.length l)) l.
Proof.
  induction l as [|x [|y r] IH]; try reflexivity.
  change (removelast (x :: y :: r)) with (x :: removelast (y :: r)).
  rewrite IH. reflexivity.
Qed.

Lemma firstn_cons_firstn (n : nat) (x : A) (l : list A) :
  firstn n (x :: firstn n l) = firstn n (x :: l).
Proof.
  destruct n as [|m]; [reflexivity|].
  rewrite !firstn_cons, firstn_firstn. f_equal. f_equal. lia.
Qed.

Lemma firstn_app_firstn (m n : nat) (xs l : list A) :
  (m <= n)%nat -> firstn m (xs ++ firstn n l) = firstn m (xs ++ l).
Proof.
  revert m; induction xs as [|x r IH]; intros m Hmn.
  - cbn [app]. rewrite firstn_firstn. f_equal. lia.
  - destruct m as [|m']; [reflexivity|].
    cbn [app firstn]. f_equal. apply IH. lia.
Qed.

Lemma length_update_nth (i : nat) (x : A) (l : list A) :
  List.length (update_nth i x l) = List.length l.
Proof.
  revert i; induction l as [|y r IH]; intros [|j]; simpl; auto.
Qed.
End Capped.

Lemma store_alert_firstn (alert : obj) (alerts : list obj) :
  (List.length alerts <= MAX_ALERTS)%nat ->
  store_alert alert alerts = firstn MAX_ALERTS (alert :: alerts).
Proof.
  unfold store_alert. generalize MAX_ALERTS as cap. intros cap Hlen.
  destruct (Nat.ltb cap (List.length (alert :: alerts))) eqn:E.
  - apply Nat.ltb_lt in E. rewrite removelast_is_firstn.
    cbn [List.length pred] in *. f_equal. lia.
  - apply Nat.ltb_ge in E. symmetry. apply firstn_all2. exact E.
Qed.

Lemma store_alert_length (alert : obj) (alerts : list obj) :
  (List.length alerts <= MAX_ALERTS)%nat ->
  (List.length (store_alert alert alerts) <= MAX_ALERTS)%nat.
Proof.
  intro H. rewrite store_alert_firstn by exact H. apply firstn_le_length.
Qed.

Lemma capped_init : capped init.
Proof. split; cbn; apply Nat.le_0_l. Qed.

Lemma send_alert_capped e k a st : capped st -> capped (fst (fst (send_alert e k a st))).
Proof.
  intros [Hc Hs]. unfold send_alert.
  destruct (negb (JS.strict_eq k (VStr API_KEY))); [now split|].
  destruct (camera_alert e a); [|now split].
  split; cbn [fst with_cameraAlerts cameraAlerts sosAlerts]; auto using store_alert_length.
Qed.

Lemma send_sos_alert_capped e k a st :
  capped st -> capped (fst (fst (send_sos_alert e k a st))).
Proof.
  intros [Hc Hs]. unfold send_sos_alert.
  destruct (negb (JS.strict_eq k (VStr API_KEY))); [now split|].
  cbn [sos_alert]. 
  split; cbn [fst with_sosAlerts cameraAlerts sosAlerts]; auto using store_alert_length.
Qed.

Lemma resolve_alert_capped e b st : capped st -> capped (fst (fst (resolve_alert e b st))).
Proof.
  intros [Hc Hs]. unfold resolve_alert, selected, with_selected.
  destruct (JS.strict_eq (Obj.get b "alertType") (VStr "sos"));
    match goal with |- context [findIndex ?p ?l] => destruct (findIndex p l) end;
    split; cbn [fst with_sosAlerts with_cameraAlerts cameraAlerts sosAlerts];
    rewrite ?length_update_nth; assumption.
Qed.

Lemma clear_alerts_capped b st : capped st -> capped (fst (fst (clear_alerts b st))).
Proof.
  intros [Hc Hs]. unfold clear_alerts.
  destruct (JS.strict_eq (Obj.get b "alertType") (VStr "camera"));
    [|destruct (JS.strict_eq (Obj.get b "alertType") (VStr "sos"))];
    split; cbn; auto using Nat.le_0_l.
Qed.

Lemma of_http_fst (r : state * response * list event) : fst (of_http r) = fst (fst r).
Proof. now destruct r as [[st res] evs]. Qed.

Lemma step_capped e i st : capped st -> capped (fst (step e i st)).
Proof.
  intro H. destruct i; cbn [step]; rewrite ?of_http_fst.
  - now apply send_alert_capped.
  - now apply send_sos_alert_capped.
  - now apply resolve_alert_capped.
  - now apply clear_alerts_capped.
  - exact H.
  - destruct (officer_login e id officer st) as [[st' evs]|err] eqn:E; [|exact H].
    unfold officer_login in E.
    destruct (member officer "name"); [|discriminate].
    destruct (member officer "lat"); [|discriminate].
    destruct (member officer "lng"); [|discriminate].
    destruct (member officer "unit"); [|discriminate].
    cbn in E. injection E as <- _. exact H.
  - destruct (start_tracking e id data st) as [[st' evs]|err] eqn:E; [|exact H].
    unfold start_tracking in E.
    destruct (member data "alertId"); [|discriminate].
    destruct (member data "alertLat"); [|discriminate].
    destruct (member data "alertLng"); [|discriminate].
    destruct (member data "alertType"); [|discriminate].
    cbn in E. injection E as <- _. exact H.
  - destruct (update_location id location st) as [[st' evs]|err] eqn:E; [|exact H].
    unfold update_location in E.
    destruct (JSMap.get (connectedOfficers st) id); [|injection E as <- _; exact H].
    destruct (member location "lat"); [|discriminate].
    destruct (member location "lng"); [|discriminate].
    cbn in E.
    destruct (JSMap.get (activeTracking st) id); injection E as <- _; exact H.
  - exact H.
  - exact H.
Qed.

Lemma run_capped steps : forall st, capped st -> capped (run st steps).
Proof.
  induction steps as [|[e i] rest IH]; intros st H; [exact H|].
  cbn [run]. apply IH. now apply step_capped.
Qed.

Lemma run_app st xs ys : run st (xs ++ ys) = run (run st xs) ys.
Proof.
  revert st; induction xs as [|[e i] rest IH]; intro st; [reflexivity|].
  cbn [run app]. apply IH.
Qed.

(** After a sequence of ingestion requests, each collection holds the most
    recent insertions, newest first, cut at the cap. *)
Lemma run_ingestions (reqs : list ingestion) :
  forall st, capped st ->
    cameraAlerts (run st (map ingestion_step reqs))
      = firstn MAX_ALERTS (rev (camera_insertions reqs) ++ cameraAlerts st)
    /\ sosAlerts (run st (map ingestion_step reqs))
      = firstn MAX_ALERTS (rev (sos_insertions reqs) ++ sosAlerts st).
Proof.
  induction reqs as [|r rest IH]; intros st Hcap.
  - destruct Hcap as [Hc Hs].
    cbn [map run camera_insertions sos_insertions flat_map rev app].
    now rewrite !firstn_all2.
  - assert (Hstep : capped (fst (step (fst (ingestion_step r)) (snd (ingestion_step r)) st)))
      by now apply step_capped.
    cbn [map run]. destruct (ingestion_step r) as [e i] eqn:Ei. cbn [fst snd] in Hstep.
    destruct (IH _ Hstep) as [IHc IHs]. rewrite IHc, IHs. clear IH IHc IHs Hstep.
    destruct Hcap as [Hc Hs].
    destruct r as [e0 k a|e0 k a]; cbn in Ei; injection Ei as <- <-;
      cbn [step camera_insertions sos_insertions flat_map]; rewrite of_http_fst.
    + unfold send_alert. destruct (JS.strict_eq k (VStr API_KEY)); cbn [negb fst].
      * destruct (camera_alert e0 a) as [alert|err]; cbn [fst app];
          cbn [with_cameraAlerts cameraAlerts sosAlerts]; [|now split].
        split; [|reflexivity].
        rewrite store_alert_firstn by exact Hc.
        rewrite firstn_app_firstn by apply Nat.le_refl.
        cbn [rev app]. now rewrite <- app_assoc.
      * now split.
    + unfold send_sos_alert. destruct (JS.strict_eq k (VStr API_KEY)); cbn [negb fst].
      * cbn [sos_alert fst app with_sosAlerts cameraAlerts sosAlerts].
        split; [reflexivity|].
        rewrite store_alert_firstn by exact Hs.
        rewrite firstn_app_firstn by apply Nat.le_refl.
        cbn [rev app]. now rewrite <- app_assoc.
      * now split.
Qed.

(** C1.  In every state the server reaches, and after every further sequence
    of ingestion requests (camera and SOS, in any order), neither collection
    is longer than [MAX_ALERTS], and each collection is the sequence of the
    alerts inserted into it, newest first, followed by what it held before,
    cut after the first [MAX_ALERTS] elements: every insertion goes to the
    head and the elements past the cap, the oldest, are dropped. *)
Theorem alerts_capped_newest_first :
  forall (history : list (env * input)) (reqs : list ingestion),
    let st := run init history in
    let st' := run st (map ingestion_step reqs) in
    (List.length (cameraAlerts st') <= MAX_ALERTS)%nat
    /\ (List.length (sosAlerts st') <= MAX_ALERTS)%nat
    /\ cameraAlerts st'
         = firstn MAX_ALERTS (rev (camera_insertions reqs) ++ cameraAlerts st)
    /\ sosAlerts st'
         = firstn MAX_ALERTS (rev (sos_insertions reqs) ++ sosAlerts st).
Proof.
  intros history reqs st st'.
  assert (Hst : capped st) by (apply run_capped, capped_init).
  assert (Hst' : capped st') by (apply run_capped, Hst).
  destruct Hst' as [Hc Hs].
  destruct (run_ingestions reqs st Hst) as [Ec Es].
  repeat split; assumption.
Qed.

(** ** The credential check *)

(** C2.  An ingestion request, camera or SOS, whose credential header is not
    the configured secret (a different string, or no header at all) is
    answered with status 403, leaves the whole state as it was, both
    collections included, and emits no event. *)
Theorem unauthorized_ingestion_rejected :
  forall (e : env) (apiKey : value) (a : obj) (st : state),
    apiKey <> VStr API_KEY ->
    send_alert e apiKey a st
      = (st, respond 403 (Failure "Unauthorized: Invalid API key"), [])
    /\ send_sos_alert e apiKey a st = (st, respond 403 (Failure "Unauthorized"), [])
    /\ (forall i, i = PostSendAlert apiKey a \/ i = PostSendSosAlert apiKey a ->
          fst (step e i st) = st
          /\ option_map status (reply (snd (step e i st))) = Some 403%nat
          /\ emitted (snd (step e i st)) = []).
Proof.
  intros e apiKey a st Hkey.
  assert (Ea : send_alert e apiKey a st
               = (st, respond 403 (Failure "Unauthorized: Invalid API key"), [])).
  { unfold send_alert. now rewrite (strict_eq_string_false _ _ Hkey). }
  assert (Es : send_sos_alert e apiKey a st = (st, respond 403 (Failure "Unauthorized"), [])).
  { unfold send_sos_alert. now rewrite (strict_eq_string_false _ _ Hkey). }
  repeat split; try assumption;
    destruct H as [-> | ->]; cbn [step]; rewrite ?Ea, ?Es; reflexivity.
Qed.

Lemma unauthorized_ingestion_rejected_witness :
  VStr "secure_key_124" <> VStr API_KEY
  /\ send_alert Sample.e0 (VStr "secure_key_124") Sample.main_st Sample.with_alert
       = (Sample.with_alert, respond 403 (Failure "Unauthorized: Invalid API key"), [])
  /\ send_sos_alert Sample.e0 VUndefined Sample.sos_body Sample.with_alert
       = (Sample.with_alert, respond 403 (Failure "Unauthorized"), []).
Proof.
  split; [discriminate|]. split.
  - apply (unauthorized_ingestion_rejected
             Sample.e0 (VStr "secure_key_124") Sample.main_st Sample.with_alert).
    discriminate.
  - apply (unauthorized_ingestion_rejected
             Sample.e0 VUndefined Sample.sos_body Sample.with_alert).
    discriminate.
Defined.

(** ** Resolution *)

Section FindIndex.
Context {A : Type} (p : A -> bool).

Lemma findIndex_existsb (l : list A) :
  existsb p l = match findIndex p l with Some _ => true | None => false end.
Proof.
  induction l as [|x r IH]; [reflexivity|].
  cbn [existsb findIndex]. destruct (p x); [reflexivity|].
  cbn [orb]. rewrite IH. now destruct (findIndex p r).
Qed.

Lemma findIndex_Some (l : list A) (i : nat) :
  findIndex p l = Some i ->
  exists x, nth_error l i = Some x /\ p x = true
    /\ forall j y, (j < i)%nat -> nth_error l j = Some y -> p y = false.
Proof.
  revert i; induction l as [|x r IH]; intros i H; [discriminate|].
  cbn [findIndex] in H. destruct (p x) eqn:Px.
  - injection H as <-. exists x. repeat split; auto. intros j y Hj. lia.
  - destruct (findIndex p r) as [k|] eqn:Ek; [|discriminate].
    injection H as <-. destruct (IH k eq_refl) as (y & Hy & Py & Hfirst).
    exists y. repeat split; auto.
    intros [|j] z Hj Hz; cbn in Hz.
    + now injection Hz as <-.
    + apply (Hfirst j); [lia|exact Hz].
Qed.

Lemma findIndex_first (l : list A) (i : nat) (x : A) :
  nth_error l i = Some x -> p x = true ->
  (forall j y, (j < i)%nat -> nth_error l j = Some y -> p y = false) ->
  findIndex p l = Some i.
Proof.
  revert i; induction l as [|z r IH]; intros [|i] Hx Px Hfirst; try discriminate.
  - cbn in Hx. injection Hx as ->. cbn [findIndex]. now rewrite Px.
  - cbn [findIndex]. rewrite (Hfirst O z) by (reflexivity || lia).
    rewrite (IH i); [reflexivity|exact Hx|exact Px|].
    intros j y Hj Hy. apply (Hfirst (S j)); [lia|exact Hy].
Qed.

Lemma nth_error_nth_default (l : list A) (i : nat) (x d : A) :
  nth_error l i = Some x -> nth i l d = x.
Proof.
  revert i; induction l as [|z r IH]; intros [|i] H; try discriminate.
  - now injection H.
  - now apply IH.
Qed.

Lemma nth_error_update_nth_same (l : list A) (i : nat) (x y : A) :
  nth_error l i = Some y -> nth_error (update_nth i x l) i = Some x.
Proof.
  revert i; induction l as [|z r IH]; intros [|i] H; try discriminate.
  - reflexivity.
  - now apply IH.
Qed.

Lemma nth_error_update_nth_other (l : list A) (i j : nat) (x : A) :
  i <> j -> nth_error (update_nth i x l) j = nth_error l j.
Proof.
  revert i j; induction l as [|z r IH]; intros [|i] [|j] H; try reflexivity.
  - contradiction.
  - cbn. apply IH. congruence.
Qed.
End FindIndex.

Lemma get_set_same (o : obj) (k : string) (v : value) : Obj.get (Obj.set o k v) k = v.
Proof.
  induction o as [|[k' v'] r IH]; cbn.
  - now rewrite String.eqb_refl.
  - destruct (String.eqb k k') eqn:E; cbn; [now rewrite String.eqb_refl|].
    now rewrite E.
Qed.

Lemma get_set_other (o : obj) (k k' : string) (v : value) :
  k <> k' -> Obj.get (Obj.set o k v) k' = Obj.get o k'.
Proof.
  intro Hne. induction o as [|[k0 v0] r IH]; cbn.
  - destruct (String.eqb k' k) eqn:E; [|reflexivity].
    apply String.eqb_eq in E. congruence.
  - destruct (String.eqb k k0) eqn:E; cbn.
    + apply String.eqb_eq in E. subst k0.
      destruct (String.eqb k' k) eqn:E'; [|reflexivity].
      apply String.eqb_eq in E'. congruence.
    + now rewrite IH.
Qed.

Lemma selected_with_selected alertType st l :
  selected alertType (with_selected alertType st l) = l.
Proof. unfold selected, with_selected. now destruct (JS.strict_eq alertType (VStr "sos")). Qed.

Lemma unselected_with_selected alertType st l :
  unselected alertType (with_selected alertType st l) = unselected alertType st.
Proof. unfold unselected, with_selected. now destruct (JS.strict_eq alertType (VStr "sos")). Qed.

Lemma mark_resolved_status e alert : Obj.get (mark_resolved e alert) "status" = VStr "resolved".
Proof.
  unfold mark_resolved. rewrite get_set_other by discriminate. apply get_set_same.
Qed.

Lemma mark_resolved_respondedAt e alert :
  Obj.get (mark_resolved e alert) "respondedAt" = VStr (iso_now e).
Proof. unfold mark_resolved. apply get_set_same. Qed.

Lemma mark_resolved_other e alert k :
  k <> "status" -> k <> "respondedAt" ->
  Obj.get (mark_resolved e alert) k = Obj.get alert k.
Proof.
  intros H1 H2. unfold mark_resolved.
  rewrite !get_set_other by congruence. reflexivity.
Qed.

(** What [resolve_alert] does when the scan finds the id at [index]. *)
Lemma resolve_alert_found e b st index alert :
  let alertType := Obj.get b "alertType" in
  let alerts := selected alertType st in
  findIndex (fun a => JS.strict_eq (Obj.get a "id") (Obj.get b "alertId")) alerts = Some index ->
  nth_error alerts index = Some alert ->
  resolve_alert e b st
    = (with_selected alertType st (update_nth index (mark_resolved e alert) alerts),
       respond 200 (Success (mark_resolved e alert)),
       [(ToAll, alert_resolved (mark_resolved e alert) alertType)]).
Proof.
  intros alertType alerts Hfind Hnth. unfold resolve_alert.
  fold alertType. fold alerts. rewrite Hfind.
  now rewrite (nth_error_nth_default _ _ _ _ Hnth).
Qed.

(** C3.  A resolve request whose id is the id of some alert of the selected
    collection (the SOS collection for [alertType === 'sos'], the camera
    collection otherwise) is answered with status 200: the first alert with
    that id gets status [resolved] and the current time as its resolution
    stamp [respondedAt], a string and so not [null]; its other properties,
    the other alerts and the other collection are as before, and the same
    request made again succeeds again and stamps the time of that second
    call.  A request whose id no alert of the selected collection has is
    answered with status 404, leaves the whole state as it was and emits no
    event. *)
Theorem resolve_alert_outcomes :
  forall (e : env) (b : obj) (st : state),
    let alertId := Obj.get b "alertId" in
    let alertType := Obj.get b "alertType" in
    let alerts := selected alertType st in
    let has_id := fun a => JS.strict_eq (Obj.get a "id") alertId in
    if existsb has_id alerts then
      exists (index : nat) (alert : obj),
        nth_error alerts index = Some alert
        /\ has_id alert = true
        /\ (forall j a, (j < index)%nat -> nth_error alerts j = Some a -> has_id a = false)
        /\ let resolved := mark_resolved e alert in
           let st' := fst (fst (resolve_alert e b st)) in
           resolve_alert e b st
             = (with_selected alertType st (update_nth index resolved alerts),
                respond 200 (Success resolved),
                [(ToAll, alert_resolved resolved alertType)])
           /\ Obj.get resolved "status" = VStr "resolved"
           /\ Obj.get resolved "respondedAt" = VStr (iso_now e)
           /\ Obj.get resolved "respondedAt" <> VNull
           /\ (forall k, k <> "status" -> k <> "respondedAt" ->
                 Obj.get resolved k = Obj.get alert k)
           /\ nth_error (selected alertType st') index = Some resolved
           /\ (forall j, j <> index ->
                 nth_error (selected alertType st') j = nth_error alerts j)
           /\ unselected alertType st' = unselected alertType st
           /\ activeTracking st' = activeTracking st
           /\ connectedOfficers st' = connectedOfficers st
           /\ (forall e' : env,
                 let again := mark_resolved e' resolved in
                 resolve_alert e' b st'
                   = (with_selected alertType st'
                        (update_nth index again (selected alertType st')),
                      respond 200 (Success again),
                      [(ToAll, alert_resolved again alertType)])
                 /\ Obj.get again "status" = VStr "resolved"
                 /\ Obj.get again "respondedAt" = VStr (iso_now e'))
    else
      resolve_alert e b st = (st, respond 404 (Failure "Alert not found"), []).
Proof.
  intros e b st alertId alertType alerts has_id.
  rewrite findIndex_existsb.
  destruct (findIndex has_id alerts) as [index|] eqn:Hfind.
  - destruct (findIndex_Some _ _ _ Hfind) as (alert & Hnth & Hid & Hfirst).
    exists index, alert. split; [exact Hnth|]. split; [exact Hid|]. split; [exact Hfirst|].
    intros resolved st'.
    assert (Eres : resolve_alert e b st
                   = (with_selected alertType st (update_nth index resolved alerts),
                      respond 200 (Success resolved),
                      [(ToAll, alert_resolved resolved alertType)]))
      by (apply resolve_alert_found; assumption).
    assert (Est' : st' = with_selected alertType st (update_nth index resolved alerts))
      by (unfold st'; now rewrite Eres).
    assert (Esel : selected alertType st' = update_nth index resolved alerts)
      by (rewrite Est'; apply selected_with_selected).
    assert (Hnth' : nth_error (selected alertType st') index = Some resolved)
      by (rewrite Esel; eapply nth_error_update_nth_same; exact Hnth).
    split; [exact Eres|].
    split; [apply mark_resolved_status|].
    split; [apply mark_resolved_respondedAt|].
    split; [unfold resolved; rewrite mark_resolved_respondedAt; discriminate|].
    split; [intros k H1 H2; now apply mark_resolved_other|].
    split; [exact Hnth'|].
    split; [intros j Hj; rewrite Esel; apply nth_error_update_nth_other; congruence|].
    split; [rewrite Est'; apply unselected_with_selected|].
    split; [rewrite Est'; unfold with_selected;
            now destruct (JS.strict_eq alertType (VStr "sos"))|].
    split; [rewrite Est'; unfold with_selected;
            now destruct (JS.strict_eq alertType (VStr "sos"))|].
    intros e' again.
    split; [|split; [apply mark_resolved_status|apply mark_resolved_respondedAt]].
    apply resolve_alert_found; [|exact Hnth'].
    apply findIndex_first with (x := resolved); [exact Hnth'| |].
    + unfold resolved. rewrite mark_resolved_other by discriminate. exact Hid.
    + intros j a Hj Ha. fold alertType in Ha. rewrite Esel in Ha.
      rewrite nth_error_update_nth_other in Ha by lia.
      exact (Hfirst j a Hj Ha).
  - unfold resolve_alert. fold alertType. fold alerts. fold alertId. fold has_id.
    now rewrite Hfind.
Qed.

(** ** Clearing *)

(** C6.  [clear] of the camera kind empties the camera collection, leaves the
    SOS collection as it was and reports the number of camera alerts
    removed; [clear] of the SOS kind does the same with the roles
    exchanged; [clear] of any other kind ([all], or none given) empties
    both collections and reports the sum of their sizes.  The tracking
    sessions and the presences are never touched. *)
Theorem clear_alerts_frame :
  forall (b : obj) (st : state),
    let alertType := Obj.get b "alertType" in
    let st' := fst (fst (clear_alerts b st)) in
    let res := snd (fst (clear_alerts b st)) in
    (alertType = VStr "camera" ->
       cameraAlerts st' = [] /\ sosAlerts st' = sosAlerts st
       /\ res = respond 200 (Cleared (List.length (cameraAlerts st)) "camera"))
    /\ (alertType = VStr "sos" ->
       sosAlerts st' = [] /\ cameraAlerts st' = cameraAlerts st
       /\ res = respond 200 (Cleared (List.length (sosAlerts st)) "sos"))
    /\ (alertType <> VStr "camera" -> alertType <> VStr "sos" ->
       cameraAlerts st' = [] /\ sosAlerts st' = []
       /\ res = respond 200
                  (Cleared (List.length (cameraAlerts st) + List.length (sosAlerts st)) "all"))
    /\ activeTracking st' = activeTracking st
    /\ connectedOfficers st' = connectedOfficers st.
Proof.
  intros b st alertType st' res. unfold st', res, clear_alerts. fold alertType.
  split; [intros E; rewrite E; now repeat split|].
  split; [intros E; rewrite E; now repeat split|].
  split; [intros Hc Hs; rewrite !strict_eq_string_false by assumption; now repeat split|].
  destruct (JS.strict_eq alertType (VStr "camera")); [now split|].
  now destruct (JS.strict_eq alertType (VStr "sos")).
Qed.

(** ** The alert objects *)

Lemma upper_char_not_lower (c : ascii) : is_lower (Str.upper_char c) = false.
Proof. destruct c as [[] [] [] [] [] [] [] []]; reflexivity. Qed.

Lemma toUpperCase_upper_cased (s : string) : upper_cased (Str.toUpperCase s).
Proof.
  induction s as [|c r IH]; constructor; [apply upper_char_not_lower|exact IH].
Qed.

Lemma toUpperCase_length (s : string) : String.length (Str.toUpperCase s) = String.length s.
Proof. induction s as [|c r IH]; cbn; congruence. Qed.

Lemma or_falsy (v d : value) : JS.truthy v = false -> JS.or v d = d.
Proof. unfold JS.or. now intros ->. Qed.

Lemma or_truthy (v d : value) : JS.truthy v = true -> JS.or v d = v.
Proof. unfold JS.or. now intros ->. Qed.

(** [parseFloat(v) || fallback] and [parseInt(v) || fallback] *)
Lemma or_number (f d : float) :
  JS.or (VNum f) (VNum d) = VNum (if Num.is_falsy f then d else f).
Proof. unfold JS.or, JS.truthy. now destruct (Num.is_falsy f). Qed.

Lemma fallback_not_falsy :
  Num.is_falsy FALLBACK_LAT = false /\ Num.is_falsy FALLBACK_LNG = false.
Proof. split; reflexivity. Qed.

Lemma store_alert_head (alert : obj) (alerts : list obj) :
  hd_error (store_alert alert alerts) = Some alert.
Proof.
  unfold store_alert. destruct alerts as [|x r]; [reflexivity|].
  now destruct (Nat.ltb MAX_ALERTS (List.length (alert :: x :: r))).
Qed.

(** The properties of the camera alert object that the defaults decide. *)
Lemma camera_alert_fields e a alert :
  camera_alert e a = Ok alert ->
  exists sev,
    call_toUpperCase (JS.or (Obj.get a "severity") (VStr "MEDIUM")) = Ok sev
    /\ Obj.get alert "severity" = VStr sev
    /\ Obj.get alert "lat"
       = JS.or (VNum (JS.parseFloat (Obj.get a "lat"))) (VNum FALLBACK_LAT)
    /\ Obj.get alert "lng"
       = JS.or (VNum (JS.parseFloat (Obj.get a "lng"))) (VNum FALLBACK_LNG)
    /\ Obj.get alert "personCount"
       = JS.or (VNum (JS.parseInt (Obj.get a "personCount"))) (VNum 0)
    /\ Obj.get alert "status" = VStr "active".
Proof.
  unfold camera_alert.
  destruct (call_toUpperCase (JS.or (Obj.get a "severity") (VStr "MEDIUM"))) as [sev|err];
    cbn [bind]; [|discriminate].
  intros H. injection H as <-. exists sev. repeat split; reflexivity.
Qed.

Lemma camera_alert_throws e a err :
  camera_alert e a = Throw err ->
  JS.truthy (Obj.get a "severity") = true /\ forall s, Obj.get a "severity" <> VStr s.
Proof.
  unfold camera_alert, JS.or.
  destruct (Obj.get a "severity") as [| |[|]|f|s] eqn:E; cbn [JS.truthy];
    try discriminate; try (split; [reflexivity|discriminate]).
  - destruct (negb (Num.is_falsy f)); cbn; [split; [reflexivity|discriminate]|discriminate].
  - destruct (negb (String.eqb s "")); discriminate.
Qed.

(** C4.  A camera ingestion request with the valid credential whose
    [severity] is absent, falsy or a string stores at the head of the
    camera collection the alert it echoes and broadcasts, and in that
    alert: [severity] is [MEDIUM] when none (or a falsy one) was given and
    the given string in upper case otherwise (for a string of ASCII
    characters, the string with its letters upper-cased), with no
    lower-case letter left; [lat] and [lng] are the fallback coordinate
    when the field is missing or does not parse to a number, and the
    parsed number when that is neither [NaN] nor zero; [personCount] is
    [0] when the field is missing; [status] is [active].  When [severity]
    is a truthy value that is not a string, such as the number 3, the call
    of [toUpperCase] throws: the request is answered with status 500,
    nothing is stored and nothing is broadcast.  An SOS ingestion request
    with the valid credential stores and echoes an alert whose [severity]
    is [CRITICAL] whatever the request says. *)
Theorem ingestion_defaults :
  forall (e : env) (a : obj) (st : state),
    let severity := Obj.get a "severity" in
    let defaulted (v : value) (fallback : float) (stored : value) : Prop :=
      (v = VUndefined -> stored = VNum fallback)
      /\ (is_nan (JS.parseFloat v) = true -> stored = VNum fallback)
      /\ (Num.is_falsy (JS.parseFloat v) = false -> stored = VNum (JS.parseFloat v)) in
    (JS.truthy severity = false \/ (exists s, severity = VStr s) ->
       exists alert,
         send_alert e (VStr API_KEY) a st
           = (with_cameraAlerts st (store_alert alert (cameraAlerts st)),
              respond 200 (Success alert),
              [(ToAll, new_camera_alert alert)])
         /\ hd_error (cameraAlerts (fst (fst (send_alert e (VStr API_KEY) a st))))
            = Some alert
         /\ (JS.truthy severity = false -> Obj.get alert "severity" = VStr "MEDIUM")
         /\ (forall s, severity = VStr s -> s <> "" -> ascii_only s ->
               Obj.get alert "severity" = VStr (Str.toUpperCase s))
         /\ (exists s, Obj.get alert "severity" = VStr s /\ upper_cased s)
         /\ defaulted (Obj.get a "lat") FALLBACK_LAT (Obj.get alert "lat")
         /\ defaulted (Obj.get a "lng") FALLBACK_LNG (Obj.get alert "lng")
         /\ (Obj.get a "personCount" = VUndefined -> Obj.get alert "personCount" = VNum 0)
         /\ Obj.get alert "status" = VStr "active")
    /\ (JS.truthy severity = true -> (forall s, severity <> VStr s) ->
          send_alert e (VStr API_KEY) a st = (st, respond 500 (FailureOf TypeError), []))
    /\ exists alert,
         send_sos_alert e (VStr API_KEY) a st
           = (with_sosAlerts st (store_alert alert (sosAlerts st)),
              respond 200 (Success alert),
              [(ToAll, new_sos_alert alert)])
         /\ hd_error (sosAlerts (fst (fst (send_sos_alert e (VStr API_KEY) a st))))
            = Some alert
         /\ Obj.get alert "severity" = VStr "CRITICAL"
         /\ defaulted (Obj.get a "lat") FALLBACK_LAT (Obj.get alert "lat")
         /\ defaulted (Obj.get a "lng") FALLBACK_LNG (Obj.get alert "lng")
         /\ Obj.get alert "status" = VStr "active".
Proof.
  intros e a st severity defaulted.
  assert (Hdef : forall v fb, defaulted v fb (JS.or (VNum (JS.parseFloat v)) (VNum fb))).
  { intros v fb. unfold defaulted. rewrite or_number. unfold Num.is_falsy. repeat split.
    - now intros ->.
    - now intros ->.
    - now intros ->. }
  assert (Hkey : negb (JS.strict_eq (VStr API_KEY) (VStr API_KEY)) = false)
    by reflexivity.
  split; [|split].
  - intros Hsev.
    destruct (camera_alert e a) as [alert|error] eqn:Ealert.
    + destruct (camera_alert_fields _ _ _ Ealert)
        as (sev & Hup & Gsev & Glat & Glng & Gcount & Gstatus).
      fold severity in Hup.
      assert (Esend : send_alert e (VStr API_KEY) a st
                      = (with_cameraAlerts st (store_alert alert (cameraAlerts st)),
                         respond 200 (Success alert),
                         [(ToAll, new_camera_alert alert)]))
        by (unfold send_alert; rewrite Hkey; now rewrite Ealert).
      exists alert. split; [exact Esend|].
      split; [rewrite Esend; apply store_alert_head|].
      split.
      { intros T. rewrite or_falsy in Hup by exact T. cbn in Hup.
        injection Hup as <-. exact Gsev. }
      split.
      { intros s Es Hs _. rewrite Es in Hup. rewrite or_truthy in Hup.
        - cbn in Hup. injection Hup as <-. exact Gsev.
        - cbn. destruct (String.eqb s "") eqn:E; [|reflexivity].
          apply String.eqb_eq in E. contradiction. }
      split.
      { exists sev. split; [exact Gsev|].
        destruct (JS.or severity (VStr "MEDIUM")); try discriminate.
        cbn in Hup. injection Hup as <-. apply toUpperCase_upper_cased. }
      split; [rewrite Glat; apply Hdef|].
      split; [rewrite Glng; apply Hdef|].
      split; [intros E; rewrite Gcount, E; reflexivity|exact Gstatus].
    + exfalso. destruct (camera_alert_throws _ _ _ Ealert) as [T Hns].
      fold severity in T, Hns.
      destruct Hsev as [F|[s Es]]; [congruence|exact (Hns s Es)].
  - intros T Hns. unfold send_alert. rewrite Hkey.
    destruct (camera_alert e a) as [alert|error] eqn:Ealert; [|now destruct error].
    exfalso. destruct (camera_alert_fields _ _ _ Ealert) as (sev & Hup & _).
    fold severity in Hup. rewrite or_truthy in Hup by exact T.
    destruct severity as [| |b|f|s]; try discriminate. exact (Hns s eq_refl).
  - eexists. split; [reflexivity|].
    split; [apply store_alert_head|].
    split; [reflexivity|].
    split; [apply Hdef|]. split; [apply Hdef|reflexivity].
Qed.

Lemma send_alert_success e apiKey a st alert :
  json (snd (fst (send_alert e apiKey a st))) = Success alert ->
  camera_alert e a = Ok alert
  /\ fst (fst (send_alert e apiKey a st))
     = with_cameraAlerts st (store_alert alert (cameraAlerts st)).
Proof.
  unfold send_alert. destruct (negb (JS.strict_eq apiKey (VStr API_KEY))); [discriminate|].
  destruct (camera_alert e a) as [x|err]; [|discriminate].
  cbn. intros H. injection H as ->. now split.
Qed.

Lemma send_sos_alert_success e apiKey a st alert :
  json (snd (fst (send_sos_alert e apiKey a st))) = Success alert ->
  sos_alert e a = Ok alert
  /\ fst (fst (send_sos_alert e apiKey a st))
     = with_sosAlerts st (store_alert alert (sosAlerts st)).
Proof.
  unfold send_sos_alert. destruct (negb (JS.strict_eq apiKey (VStr API_KEY))); [discriminate|].
  cbn [sos_alert]. cbn. intros H. injection H as <-. now split.
Qed.

(** The coordinate [parseFloat(v) || fallback] is the fallback when the
    parsed number is a zero, and is never a zero. *)
Lemma coordinate_not_zero (v : value) (fallback : float) :
  is_zero fallback = false ->
  (is_zero (JS.parseFloat v) = true ->
     JS.or (VNum (JS.parseFloat v)) (VNum fallback) = VNum fallback)
  /\ exists f, JS.or (VNum (JS.parseFloat v)) (VNum fallback) = VNum f /\ is_zero f = false.
Proof.
  intros Hfb. rewrite or_number. unfold Num.is_falsy. split.
  - intros ->. now rewrite orb_true_r.
  - destruct (is_nan (JS.parseFloat v)); cbn [orb]; [now exists fallback|].
    destruct (is_zero (JS.parseFloat v)) eqn:Z; [now exists fallback|].
    now exists (JS.parseFloat v).
Qed.

(** C10.  Whatever alert an ingestion request, camera or SOS, stores and
    echoes: when the request's [lat] (or [lng]) parses to the number zero,
    as the string ["0"] does, the alert's coordinate is the fallback
    [11.1085] (or [77.3411]) and not zero; and the coordinate of a stored
    alert is in no case zero, the default being taken whenever the parsed
    number is falsy. *)
Theorem zero_coordinate_never_stored :
  forall (e : env) (apiKey : value) (a : obj) (st : state) (alert : obj),
    json (snd (fst (send_alert e apiKey a st))) = Success alert
    \/ json (snd (fst (send_sos_alert e apiKey a st))) = Success alert ->
    (hd_error (cameraAlerts (fst (fst (send_alert e apiKey a st)))) = Some alert
     \/ hd_error (sosAlerts (fst (fst (send_sos_alert e apiKey a st)))) = Some alert)
    /\ (is_zero (JS.parseFloat (Obj.get a "lat")) = true ->
          Obj.get alert "lat" = VNum FALLBACK_LAT)
    /\ (is_zero (JS.parseFloat (Obj.get a "lng")) = true ->
          Obj.get alert "lng" = VNum FALLBACK_LNG)
    /\ (exists f, Obj.get alert "lat" = VNum f /\ is_zero f = false)
    /\ (exists f, Obj.get alert "lng" = VNum f /\ is_zero f = false)
    /\ is_zero (JS.parseFloat (VStr "0")) = true.
Proof.
  intros e apiKey a st alert H.
  assert (Hlat := coordinate_not_zero (Obj.get a "lat") FALLBACK_LAT eq_refl).
  assert (Hlng := coordinate_not_zero (Obj.get a "lng") FALLBACK_LNG eq_refl).
  assert (Hfields :
            Obj.get alert "lat"
              = JS.or (VNum (JS.parseFloat (Obj.get a "lat"))) (VNum FALLBACK_LAT)
            /\ Obj.get alert "lng"
              = JS.or (VNum (JS.parseFloat (Obj.get a "lng"))) (VNum FALLBACK_LNG)).
  { destruct H as [H|H].
    - apply send_alert_success in H. destruct H as [H _].
      destruct (camera_alert_fields _ _ _ H) as (sev & _ & _ & Glat & Glng & _).
      now split.
    - apply send_sos_alert_success in H. destruct H as [H _].
      cbn [sos_alert] in H. injection H as <-. now split. }
  destruct Hfields as [-> ->].
  split.
  - destruct H as [H|H].
    + left. apply send_alert_success in H. destruct H as [_ ->]. apply store_alert_head.
    + right. apply send_sos_alert_success in H. destruct H as [_ ->]. apply store_alert_head.
  - repeat split; try apply Hlat; try apply Hlng.
Qed.

(** ** The connection-keyed Maps *)

Section MapFacts.
Context {V : Type}.
Implicit Types (m : JSMap.t V) (k : string) (v : V).

Lemma map_get_set_same m k v : JSMap.get (JSMap.set m k v) k = Some v.
Proof.
  induction m as [|[k' v'] r IH]; cbn.
  - now rewrite String.eqb_refl.
  - destruct (String.eqb k k') eqn:E; cbn; [now rewrite String.eqb_refl|now rewrite E].
Qed.

Lemma map_get_set_other m k k' v :
  k <> k' -> JSMap.get (JSMap.set m k v) k' = JSMap.get m k'.
Proof.
  intro Hne. induction m as [|[k0 v0] r IH]; cbn.
  - destruct (String.eqb k' k) eqn:E; [|reflexivity].
    apply String.eqb_eq in E. congruence.
  - destruct (String.eqb k k0) eqn:E; cbn.
    + apply String.eqb_eq in E. subst k0.
      destruct (String.eqb k' k) eqn:E'; [|reflexivity].
      apply String.eqb_eq in E'. congruence.
    + now rewrite IH.
Qed.

Lemma map_get_delete_same m k : JSMap.get (JSMap.delete m k) k = None.
Proof.
  unfold JSMap.delete. induction m as [|[k' v'] r IH]; [reflexivity|].
  cbn. destruct (String.eqb k k') eqn:E; cbn; [exact IH|now rewrite E].
Qed.

Lemma map_get_delete_other m k k' :
  k <> k' -> JSMap.get (JSMap.delete m k) k' = JSMap.get m k'.
Proof.
  intro Hne. unfold JSMap.delete. induction m as [|[k0 v0] r IH]; [reflexivity|].
  cbn. destruct (String.eqb k k0) eqn:E; cbn.
  - apply String.eqb_eq in E. subst k0.
    destruct (String.eqb k' k) eqn:E'; [|exact IH].
    apply String.eqb_eq in E'. congruence.
  - now rewrite IH.
Qed.

Lemma map_keys_delete m k : ~ In k (JSMap.keys (JSMap.delete m k)).
Proof.
  unfold JSMap.keys, JSMap.delete. rewrite in_map_iff.
  intros ([k' v'] & Hk & Hin). cbn in Hk. subst k'.
  apply filter_In in Hin. destruct Hin as [_ Hneq]. cbn in Hneq.
  now rewrite String.eqb_refl in Hneq.
Qed.

Lemma in_delete m k k' v :
  In (k', v) (JSMap.delete m k) -> k' <> k /\ In (k', v) m.
Proof.
  unfold JSMap.delete. intros H. apply filter_In in H. destruct H as [Hin Hne].
  split; [|exact Hin]. cbn in Hne. intros ->. now rewrite String.eqb_refl in Hne.
Qed.

Lemma map_get_None_keys m k : JSMap.get m k = None <-> ~ In k (JSMap.keys m).
Proof.
  induction m as [|[k' v'] r IH]; cbn; [tauto|].
  destruct (String.eqb k k') eqn:E.
  - apply String.eqb_eq in E. subst k'. split; [discriminate|]. intros H. exfalso. auto.
  - apply String.eqb_neq in E. rewrite IH. split.
    + intros H [H'|H']; [congruence|contradiction].
    + intros H H'. apply H. now right.
Qed.

(** Keys stay distinct, as in a [Map]. *)
Lemma map_keys_set m k v :
  NoDup (JSMap.keys m) -> NoDup (JSMap.keys (JSMap.set m k v)).
Proof.
  induction m as [|[k' v'] r IH]; intros Hnd; cbn.
  - constructor; [intros []|constructor].
  - inversion Hnd as [|? ? Hnotin Hnd']; subst.
    destruct (String.eqb k k') eqn:E; cbn.
    + apply String.eqb_eq in E. subst k'. now constructor.
    + constructor; [|now apply IH].
      apply String.eqb_neq in E.
      intros Hin. fold (JSMap.keys (JSMap.set r k v)) in Hin.
      apply map_get_None_keys in Hnotin.
      rewrite <- (map_get_set_other r k k' v E) in Hnotin.
      apply map_get_None_keys in Hnotin. contradiction.
Qed.

Lemma map_keys_delete_NoDup m k :
  NoDup (JSMap.keys m) -> NoDup (JSMap.keys (JSMap.delete m k)).
Proof.
  induction m as [|[k' v'] r IH]; intros Hnd; cbn; [constructor|].
  inversion Hnd as [|? ? Hnotin Hnd']; subst.
  destruct (String.eqb k k'); cbn; [now apply IH|].
  constructor; [|now apply IH].
  intros Hin. apply Hnotin. unfold JSMap.keys, JSMap.delete in Hin.
  apply in_map_iff in Hin. destruct Hin as (kv & Hk & Hin).
  apply filter_In in Hin. destruct Hin as [Hin _].
  apply in_map_iff. now exists kv.
Qed.
End MapFacts.

(** ** Disconnection *)

(** C5.  When a connection disconnects, its presence and its tracking
    session are removed: neither Map has the connection as a key any more,
    and every object the tracking-data query lists afterwards, session or
    presence, is that of another connection; the entries of the other
    connections and both alert collections are as before.  The handler emits no event at all: no
    roster-changed broadcast, and no stop notice either, although
    [stop_tracking], which removes a session in the same way, broadcasts
    [tracking_stopped]. *)
Theorem disconnect_removes_without_notice :
  forall (e : env) (id : string) (st : state),
    let st' := fst (step e (Disconnect id) st) in
    JSMap.get (connectedOfficers st') id = None
    /\ JSMap.get (activeTracking st') id = None
    /\ ~ In id (JSMap.keys (connectedOfficers st'))
    /\ ~ In id (JSMap.keys (activeTracking st'))
    /\ (forall o, In o (fst (tracking_data st')) ->
          exists id' session,
            id' <> id /\ In (id', session) (JSMap.entries (activeTracking st))
            /\ o = Obj.spread [("officerId", VStr id')] session)
    /\ (forall o, In o (snd (tracking_data st')) ->
          exists id' officer,
            id' <> id /\ In (id', officer) (JSMap.entries (connectedOfficers st))
            /\ o = Obj.spread [("id", VStr id')] officer)
    /\ (forall id', id' <> id ->
          JSMap.get (connectedOfficers st') id' = JSMap.get (connectedOfficers st) id'
          /\ JSMap.get (activeTracking st') id' = JSMap.get (activeTracking st) id')
    /\ cameraAlerts st' = cameraAlerts st
    /\ sosAlerts st' = sosAlerts st
    /\ emitted (snd (step e (Disconnect id) st)) = []
    /\ emitted (snd (step e (StopTracking id) st)) = [(ToAll, tracking_stopped id)].
Proof.
  intros e id st st'. unfold st'. cbn.
  split; [apply map_get_delete_same|].
  split; [apply map_get_delete_same|].
  split; [apply map_keys_delete|].
  split; [apply map_keys_delete|].
  split; [intros o Ho; apply in_map_iff in Ho; destruct Ho as ([id' x] & <- & Hin);
          apply in_delete in Hin; destruct Hin; now exists id', x|].
  split; [intros o Ho; apply in_map_iff in Ho; destruct Ho as ([id' x] & <- & Hin);
          apply in_delete in Hin; destruct Hin; now exists id', x|].
  split; [|now repeat split].
  intros id' Hne. split; apply map_get_delete_other; congruence.
Qed.

(** ** Position updates *)

(** C9.  [update_location] takes no default: for a connection with a
    presence, when the [lat] and [lng] of the payload do not parse to
    numbers, the handler succeeds and the presence's [lat] and [lng] are
    [NaN] afterwards, and so are the [officerLat] and [officerLng] of the
    connection's tracking session when it has one, which is then broadcast
    with them. *)
Theorem update_location_keeps_unparsed_coordinates :
  forall (id : string) (loc officer : obj) (st : state),
    JSMap.get (connectedOfficers st) id = Some officer ->
    is_nan (JS.parseFloat (Obj.get loc "lat")) = true ->
    is_nan (JS.parseFloat (Obj.get loc "lng")) = true ->
    exists (st' : state) (evs : list event) (officer' : obj),
      update_location id (AObj loc) st = Ok (st', evs)
      /\ JSMap.get (connectedOfficers st') id = Some officer'
      /\ (exists f, Obj.get officer' "lat" = VNum f /\ is_nan f = true)
      /\ (exists f, Obj.get officer' "lng" = VNum f /\ is_nan f = true)
      /\ (forall tracking, JSMap.get (activeTracking st) id = Some tracking ->
            exists tracking',
              JSMap.get (activeTracking st') id = Some tracking'
              /\ (exists f, Obj.get tracking' "officerLat" = VNum f /\ is_nan f = true)
              /\ (exists f, Obj.get tracking' "officerLng" = VNum f /\ is_nan f = true)
              /\ evs = [(ToAll, tracking_update id tracking')]).
Proof.
  intros id loc officer st Hoff Hlat Hlng.
  unfold update_location. rewrite Hoff. cbn [member bind].
  cbn [with_connectedOfficers activeTracking connectedOfficers].
  destruct (JSMap.get (activeTracking st) id) as [tracking|] eqn:Htr.
  - do 3 eexists. split; [reflexivity|].
    cbn [with_activeTracking connectedOfficers activeTracking].
    split; [apply map_get_set_same|].
    split; [eexists; split; [rewrite get_set_other by discriminate; apply get_set_same|exact Hlat]|].
    split; [eexists; split; [apply get_set_same|exact Hlng]|].
    intros tr Etr. injection Etr as <-. eexists.
    split; [apply map_get_set_same|].
    split; [eexists; split; [rewrite get_set_other by discriminate; apply get_set_same|exact Hlat]|].
    split; [eexists; split; [apply get_set_same|exact Hlng]|reflexivity].
  - do 3 eexists. split; [reflexivity|].
    cbn [with_connectedOfficers connectedOfficers activeTracking].
    split; [apply map_get_set_same|].
    split; [eexists; split; [rewrite get_set_other by discriminate; apply get_set_same|exact Hlat]|].
    split; [eexists; split; [apply get_set_same|exact Hlng]|].
    intros tr Etr. discriminate.
Qed.

(** ** Tracking sessions *)

(** C7, as amended.  A [start_tracking] event whose payload is an object
    always creates a session for the connection, replacing the one it had
    and leaving those of the other connections: the alert collections are
    not consulted, the same session and events result whatever they hold.
    Each coordinate of the responder position is the presence's when the
    connection has a presence and that coordinate is truthy, and the
    fallback ([11.1085], [77.3411]) otherwise: without a presence, and also
    when the presence's coordinate is zero or [NaN].  The acknowledgment
    goes to the originating connection only and the tracking update to
    all. *)
Theorem start_tracking_session :
  forall (e : env) (id : string) (data : obj) (st : state),
    exists session : obj,
      let sessions := JSMap.set (activeTracking st) id session in
      let events := [(ToSocket id, tracking_started (Obj.get data "alertId"));
                     (ToAll, tracking_update id session)] in
      start_tracking e id (AObj data) st = Ok (with_activeTracking st sessions, events)
      /\ JSMap.get sessions id = Some session
      /\ (forall id', id' <> id ->
            JSMap.get sessions id' = JSMap.get (activeTracking st) id')
      /\ Obj.get session "alertId" = Obj.get data "alertId"
      /\ Obj.get session "status" = VStr "tracking"
      /\ (let from_presence (k : string) (fallback : float) (stored : value) : Prop :=
            match JSMap.get (connectedOfficers st) id with
            | Some officer =>
                stored = if JS.truthy (Obj.get officer k)
                         then Obj.get officer k else VNum fallback
            | None => stored = VNum fallback
            end in
          from_presence "lat" FALLBACK_LAT (Obj.get session "officerLat")
          /\ from_presence "lng" FALLBACK_LNG (Obj.get session "officerLng"))
      /\ (forall camera sos : list obj,
            let st0 := with_sosAlerts (with_cameraAlerts st camera) sos in
            start_tracking e id (AObj data) st0 = Ok (with_activeTracking st0 sessions, events)).
Proof.
  intros e id data st.
  exists (tracking_session e (JSMap.get (connectedOfficers st) id)
            (Obj.get data "alertId") (Obj.get data "alertLat")
            (Obj.get data "alertLng") (Obj.get data "alertType")).
  intros sessions events.
  split; [reflexivity|].
  split; [apply map_get_set_same|].
  split; [intros id' Hne; apply map_get_set_other; congruence|].
  split; [reflexivity|]. split; [reflexivity|].
  split; [|intros camera sos st0; reflexivity].
  cbn [tracking_session Obj.get String.eqb Ascii.eqb Bool.eqb].
  destruct (JSMap.get (connectedOfficers st) id) as [officer|];
    cbn [optional_get]; unfold JS.or; now split.
Qed.

(** C8.  For a connection that has a presence, a [start_tracking] event
    followed by an [update_location] event (both with object payloads)
    leaves the presence's [lat], [lng] and the session's [officerLat],
    [officerLng] at the numbers parsed from the update's [lat] and [lng],
    the session being otherwise the one just started, and the update
    broadcasts that session to all connections and nothing else.  For a
    connection without a presence, [update_location] changes nothing and
    emits nothing, whatever its payload, also right after a
    [start_tracking]. *)
Theorem start_tracking_then_update_location :
  forall (e : env) (id : string) (data location : obj) (st : state),
    (forall officer : obj,
       JSMap.get (connectedOfficers st) id = Some officer ->
       exists (st1 st2 : state) (evs1 : list event) (officer' session session' : obj),
         start_tracking e id (AObj data) st = Ok (st1, evs1)
         /\ JSMap.get (activeTracking st1) id = Some session
         /\ update_location id (AObj location) st1
              = Ok (st2, [(ToAll, tracking_update id session')])
         /\ JSMap.get (connectedOfficers st2) id = Some officer'
         /\ Obj.get officer' "lat" = VNum (JS.parseFloat (Obj.get location "lat"))
         /\ Obj.get officer' "lng" = VNum (JS.parseFloat (Obj.get location "lng"))
         /\ (forall k, k <> "lat" -> k <> "lng" -> Obj.get officer' k = Obj.get officer k)
         /\ JSMap.get (activeTracking st2) id = Some session'
         /\ Obj.get session' "officerLat" = VNum (JS.parseFloat (Obj.get location "lat"))
         /\ Obj.get session' "officerLng" = VNum (JS.parseFloat (Obj.get location "lng"))
         /\ (forall k, k <> "officerLat" -> k <> "officerLng" ->
               Obj.get session' k = Obj.get session k))
    /\ (forall payload : arg,
          JSMap.get (connectedOfficers st) id = None ->
          update_location id payload st = Ok (st, [])
          /\ exists (st1 : state) (evs1 : list event),
               start_tracking e id (AObj data) st = Ok (st1, evs1)
               /\ update_location id payload st1 = Ok (st1, [])).
Proof.
  intros e id data location st. split.
  - intros officer Hoff.
    set (session := tracking_session e (Some officer) (Obj.get data "alertId")
                      (Obj.get data "alertLat") (Obj.get data "alertLng")
                      (Obj.get data "alertType")).
    set (st1 := with_activeTracking st (JSMap.set (activeTracking st) id session)).
    assert (Estart : start_tracking e id (AObj data) st
                     = Ok (st1, [(ToSocket id, tracking_started (Obj.get data "alertId"));
                                 (ToAll, tracking_update id session)])).
    { unfold start_tracking. cbn [member bind]. now rewrite Hoff. }
    assert (Hsession : JSMap.get (activeTracking st1) id = Some session)
      by apply map_get_set_same.
    exists st1. eexists. eexists. eexists. exists session. eexists.
    split; [exact Estart|].
    split; [exact Hsession|].
    unfold update_location.
    replace (connectedOfficers st1) with (connectedOfficers st) by reflexivity.
    rewrite Hoff. cbn [member bind].
    replace (activeTracking (with_connectedOfficers st1 _)) with (activeTracking st1)
      by reflexivity.
    rewrite Hsession.
    cbn [with_activeTracking with_connectedOfficers activeTracking connectedOfficers].
    split; [reflexivity|].
    split; [apply map_get_set_same|].
    split; [rewrite get_set_other by discriminate; apply get_set_same|].
    split; [apply get_set_same|].
    split; [intros k H1 H2; rewrite !get_set_other by congruence; reflexivity|].
    split; [apply map_get_set_same|].
    split; [rewrite get_set_other by discriminate; apply get_set_same|].
    split; [apply get_set_same|].
    intros k H1 H2. rewrite !get_set_other by congruence. reflexivity.
  - intros payload Hnone.
    split; [unfold update_location; now rewrite Hnone|].
    do 2 eexists. split; [reflexivity|].
    unfold update_location. cbn [with_activeTracking connectedOfficers].
    now rewrite Hnone.
Qed.

(** ** The statements on the scenario *)

Import Sample.

(** The end-to-end example of the spec: the severity is upper-cased, the
    coordinates are parsed, and the event carries the echoed alert. *)
Example send_alert_main_st :
  exists alert st',
    send_alert e0 (VStr API_KEY) main_st init
      = (st', respond 200 (Success alert), [(ToAll, new_camera_alert alert)])
    /\ cameraAlerts st' = [alert]
    /\ Obj.get alert "id" = VStr main_st_id
    /\ Obj.get alert "severity" = VStr "HIGH"
    /\ Obj.get alert "lat" = VNum 12.1
    /\ Obj.get alert "place" = VStr "Main St".
Proof. do 2 eexists. vm_compute. repeat split; reflexivity. Qed.

(** 201 insertions: 200 alerts are kept, the newest at the head, the first
    one gone. *)
Lemma alerts_capped_newest_first_witness :
  let st' := run init (map ingestion_step (camera_burst 201)) in
  List.length (cameraAlerts st') = 200%nat
  /\ cameraAlerts st' = firstn 200 (rev (camera_insertions (camera_burst 201)))
  /\ map (fun a => Obj.get a "place") (firstn 2 (cameraAlerts st')) = [VNum 201; VNum 200]
  /\ map (fun a => Obj.get a "place") (skipn 198 (cameraAlerts st')) = [VNum 3; VNum 2].
Proof.
  intros st'.
  destruct (alerts_capped_newest_first [] (camera_burst 201)) as (_ & _ & Hc & _).
  cbn [run init cameraAlerts] in Hc. rewrite app_nil_r in Hc.
  split; [vm_compute; reflexivity|].
  split; [exact Hc|].
  split; vm_compute; reflexivity.
Defined.

Lemma resolve_alert_outcomes_witness :
  (exists alert,
      snd (fst (resolve_alert e1 [("alertId", VStr main_st_id)] with_alert))
        = respond 200 (Success alert)
      /\ Obj.get alert "status" = VStr "resolved"
      /\ Obj.get alert "respondedAt" = VStr "2023-11-14T22:14:20.000Z"
      /\ Obj.get alert "id" = VStr main_st_id)
  /\ resolve_alert e1 [("alertId", VStr main_st_id); ("alertType", VStr "sos")] with_alert
     = (with_alert, respond 404 (Failure "Alert not found"), []).
Proof.
  split.
  - pose proof (resolve_alert_outcomes e1 [("alertId", VStr main_st_id)] with_alert) as H.
    cbv zeta in H.
    match type of H with
    | if ?c then _ else _ => replace c with true in H by (vm_compute; reflexivity)
    end.
    destruct H as (index & alert & _ & Hid & _ & Hres & Hstatus & Hstamp & _ & Hother & _).
    exists (mark_resolved e1 alert).
    split; [now rewrite Hres|]. split; [exact Hstatus|]. split; [exact Hstamp|].
    rewrite Hother by discriminate.
    destruct (Obj.get alert "id") as [| |x|x|x]; try discriminate.
    cbn in Hid. apply String.eqb_eq in Hid. now subst.
  - exact (resolve_alert_outcomes e1
             [("alertId", VStr main_st_id); ("alertType", VStr "sos")] with_alert).
Defined.

Lemma ingestion_defaults_witness :
  (exists alert,
      send_alert e0 (VStr API_KEY) [("severity", VStr "low"); ("lat", VStr "north")] init
        = (with_cameraAlerts init [alert], respond 200 (Success alert),
           [(ToAll, new_camera_alert alert)])
      /\ Obj.get alert "severity" = VStr "LOW"
      /\ Obj.get alert "lat" = VNum FALLBACK_LAT
      /\ Obj.get alert "lng" = VNum FALLBACK_LNG
      /\ Obj.get alert "personCount" = VNum 0)
  /\ send_alert e0 (VStr API_KEY) [("severity", VNum 3)] init
     = (init, respond 500 (FailureOf TypeError), []).
Proof.
  split.
  - destruct (ingestion_defaults e0 [("severity", VStr "low"); ("lat", VStr "north")] init)
      as (H & _ & _).
    destruct H as (alert & Hsend & _ & _ & Hsev & _ & (_ & Hlat & _) & (Hlng & _) & Hcount & _);
      [right; now exists "low"|].
    exists alert.
    split; [exact Hsend|].
    split; [apply (Hsev "low"); [reflexivity|discriminate|]|].
    + repeat constructor.
    + split; [apply Hlat; vm_compute; reflexivity|].
      split; [apply Hlng; reflexivity|apply Hcount; reflexivity].
  - destruct (ingestion_defaults e0 [("severity", VNum 3)] init) as (_ & H & _).
    apply H; [reflexivity|discriminate].
Defined.

Lemma clear_alerts_frame_witness :
  let st' := fst (fst (clear_alerts [("alertType", VStr "camera")] with_alert)) in
  cameraAlerts st' = [] /\ sosAlerts st' = sosAlerts with_alert
  /\ snd (fst (clear_alerts [("alertType", VStr "camera")] with_alert))
     = respond 200 (Cleared 1 "camera")
  /\ snd (fst (clear_alerts [("alertType", VStr "all")] with_alert))
     = respond 200 (Cleared 2 "all").
Proof.
  intros st'.
  destruct (clear_alerts_frame [("alertType", VStr "camera")] with_alert) as (Hc & _).
  destruct (Hc eq_refl) as (H1 & H2 & H3).
  destruct (clear_alerts_frame [("alertType", VStr "all")] with_alert) as (_ & _ & Ha & _).
  destruct Ha as (_ & _ & H4); [discriminate|discriminate|].
  repeat split; assumption.
Defined.

Lemma zero_coordinate_never_stored_witness :
  exists alert,
    json (snd (fst (send_sos_alert e0 (VStr API_KEY)
                      [("lat", VStr "0"); ("lng", VStr "-0.0")] init)))
      = Success alert
    /\ Obj.get alert "lat" = VNum FALLBACK_LAT
    /\ Obj.get alert "lng" = VNum FALLBACK_LNG.
Proof.
  eexists. split; [reflexivity|].
  match goal with
  | |- Obj.get ?alert _ = _ /\ _ =>
      destruct (zero_coordinate_never_stored e0 (VStr API_KEY)
                  [("lat", VStr "0"); ("lng", VStr "-0.0")] init alert
                  (or_intror eq_refl))
        as (_ & Hlat & Hlng & _)
  end.
  split; [apply Hlat|apply Hlng]; vm_compute; reflexivity.
Defined.

Lemma disconnect_removes_without_notice_witness :
  let st' := fst (step e1 (Disconnect "sock-1") tracking) in
  JSMap.keys (connectedOfficers st') = ["sock-2"]
  /\ JSMap.keys (activeTracking st') = []
  /\ emitted (snd (step e1 (Disconnect "sock-1") tracking)) = []
  /\ emitted (snd (step e1 (StopTracking "sock-1") tracking))
     = [(ToAll, tracking_stopped "sock-1")].
Proof.
  intros st'.
  destruct (disconnect_removes_without_notice e1 "sock-1" tracking)
    as (_ & _ & _ & _ & _ & _ & _ & _ & _ & Hsilent & Hstop).
  split; [vm_compute; reflexivity|]. split; [vm_compute; reflexivity|].
  split; assumption.
Defined.

(** C7 as the claim states it fails: the connection has a presence, at
    (0, 0), and the session starts at the fallback position, not at the
    presence's. *)
Lemma start_tracking_zero_presence_counterexample :
  exists officer session st' evs,
    JSMap.get (connectedOfficers at_origin) "sock-1" = Some officer
    /\ Obj.get officer "lat" = VNum 0
    /\ Obj.get officer "lng" = VNum 0
    /\ start_tracking e1 "sock-1" (AObj track1) at_origin = Ok (st', evs)
    /\ JSMap.get (activeTracking st') "sock-1" = Some session
    /\ Obj.get session "officerLat" = VNum FALLBACK_LAT
    /\ Obj.get session "officerLng" = VNum FALLBACK_LNG
    /\ Obj.get session "officerLat" <> Obj.get officer "lat"
    /\ Obj.get session "officerLng" <> Obj.get officer "lng".
Proof.
  do 4 eexists.
  split; [vm_compute; reflexivity|].
  split; [reflexivity|]. split; [reflexivity|].
  split; [vm_compute; reflexivity|].
  split; [reflexivity|]. split; [reflexivity|]. split; [reflexivity|].
  split;
    intros H;
    apply (f_equal (fun v => match v with VNum f => is_zero f | _ => false end)) in H;
    vm_compute in H; discriminate H.
Qed.

Lemma start_tracking_session_witness :
  exists session,
    start_tracking e1 "sock-2" (AObj track1) tracking
      = Ok (with_activeTracking tracking (JSMap.set (activeTracking tracking) "sock-2" session),
            [(ToSocket "sock-2", tracking_started (VStr main_st_id));
             (ToAll, tracking_update "sock-2" session)])
    /\ Obj.get session "officerLat" = VNum FALLBACK_LAT
    /\ JSMap.keys (JSMap.set (activeTracking tracking) "sock-2" session) = ["sock-1"; "sock-2"].
Proof.
  destruct (start_tracking_session e1 "sock-2" track1 tracking)
    as (session & Hstart & _ & _ & _ & _ & (Hlat & _) & _).
  exists session. split; [exact Hstart|].
  split; [rewrite Hlat; vm_compute; reflexivity|].
  clear. vm_compute. reflexivity.
Defined.

Lemma start_tracking_then_update_location_witness :
  exists st1 st2 evs1 officer' session',
    start_tracking e1 "sock-2" (AObj track1) tracking = Ok (st1, evs1)
    /\ update_location "sock-2" (AObj [("lat", VStr "12.5"); ("lng", VNum 77.25)]) st1
       = Ok (st2, [(ToAll, tracking_update "sock-2" session')])
    /\ JSMap.get (connectedOfficers st2) "sock-2" = Some officer'
    /\ Obj.get officer' "lat" = VNum 12.5
    /\ Obj.get officer' "lng" = VNum 77.25
    /\ JSMap.get (activeTracking st2) "sock-2" = Some session'
    /\ Obj.get session' "officerLat" = VNum 12.5
    /\ Obj.get session' "officerLng" = VNum 77.25.
Proof.
  destruct (start_tracking_then_update_location e1 "sock-2" track1
              [("lat", VStr "12.5"); ("lng", VNum 77.25)] tracking) as [H _].
  destruct (JSMap.get (connectedOfficers tracking) "sock-2") as [officer|] eqn:E;
    [|vm_compute in E; discriminate E].
  destruct (H officer eq_refl)
    as (st1 & st2 & evs1 & officer' & session & session'
        & H1 & _ & H2 & H3 & H4 & H5 & _ & H6 & H7 & H8 & _).
  exists st1, st2, evs1, officer', session'.
  repeat split; assumption.
Defined.

Lemma update_location_keeps_unparsed_coordinates_witness :
  exists st' evs officer' tracking',
    update_location "sock-1" (AObj [("lat", VStr "abc"); ("lng", VStr "")]) tracking
      = Ok (st', evs)
    /\ JSMap.get (connectedOfficers st') "sock-1" = Some officer'
    /\ Obj.get officer' "lat" = VNum nan
    /\ Obj.get officer' "lng" = VNum nan
    /\ JSMap.get (activeTracking st') "sock-1" = Some tracking'
    /\ Obj.get tracking' "officerLat" = VNum nan
    /\ Obj.get tracking' "officerLng" = VNum nan
    /\ evs = [(ToAll, tracking_update "sock-1" tracking')].
Proof.
  destruct (JSMap.get (connectedOfficers tracking) "sock-1") as [officer|] eqn:E;
    [|vm_compute in E; discriminate E].
  destruct (update_location_keeps_unparsed_coordinates "sock-1"
              [("lat", VStr "abc"); ("lng", VStr "")] officer tracking E eq_refl eq_refl)
    as (st' & evs & officer' & Hupd & Hoff & _).
  exists st', evs.
  vm_compute in Hupd. injection Hupd as <- <-.
  do 2 eexists. repeat split; vm_compute; reflexivity.
Defined.

(** * Further properties *)

(** ** What each socket handler can return *)

Lemma officer_login_inv e id officer st st' evs :
  officer_login e id officer st = Ok (st', evs) ->
  exists name lat lng unit,
    member officer "name" = Ok name /\ member officer "lat" = Ok lat
    /\ member officer "lng" = Ok lng /\ member officer "unit" = Ok unit
    /\ let presence :=
         [ ("name", JS.or name (VStr "Officer"));
           ("lat", JS.or lat (VNum FALLBACK_LAT));
           ("lng", JS.or lng (VNum FALLBACK_LNG));
           ("unit", JS.or unit (VStr "Unit-01"));
           ("status", VStr "available");
           ("loginTime", VStr (iso_now e)) ] in
       st' = with_connectedOfficers st (JSMap.set (connectedOfficers st) id presence)
       /\ evs = [(ToAll, officers_updated
                           (JSMap.values (JSMap.set (connectedOfficers st) id presence)))].
Proof.
  unfold officer_login.
  destruct (member officer "name") as [name|]; [|discriminate].
  destruct (member officer "lat") as [lat|]; [|discriminate].
  destruct (member officer "lng") as [lng|]; [|discriminate].
  destruct (member officer "unit") as [unit|]; [|discriminate].
  cbn [bind]. intros H. injection H as <- <-.
  exists name, lat, lng, unit. repeat split; reflexivity.
Qed.

Lemma start_tracking_inv e id data st st' evs :
  start_tracking e id data st = Ok (st', evs) ->
  exists alertId alertLat alertLng alertType,
    let session := tracking_session e (JSMap.get (connectedOfficers st) id)
                     alertId alertLat alertLng alertType in
    member data "alertId" = Ok alertId
    /\ st' = with_activeTracking st (JSMap.set (activeTracking st) id session)
    /\ evs = [(ToSocket id, tracking_started alertId); (ToAll, tracking_update id session)].
Proof.
  unfold start_tracking.
  destruct (member data "alertId") as [alertId|]; [|discriminate].
  destruct (member data "alertLat") as [alertLat|]; [|discriminate].
  destruct (member data "alertLng") as [alertLng|]; [|discriminate].
  destruct (member data "alertType") as [alertType|]; [|discriminate].
  cbn [bind]. intros H. injection H as <- <-.
  exists alertId, alertLat, alertLng, alertType. repeat split; reflexivity.
Qed.

Lemma update_location_inv id location st st' evs :
  update_location id location st = Ok (st', evs) ->
  match JSMap.get (connectedOfficers st) id with
  | None => st' = st /\ evs = []
  | Some officer =>
      exists lat lng,
        member location "lat" = Ok lat /\ member location "lng" = Ok lng
        /\ let officers :=
             JSMap.set (connectedOfficers st) id (moved officer "lat" "lng" lat lng) in
           match JSMap.get (activeTracking st) id with
           | None => st' = with_connectedOfficers st officers /\ evs = []
           | Some tracking =>
               let tracking' := moved tracking "officerLat" "officerLng" lat lng in
               st' = with_activeTracking (with_connectedOfficers st officers)
                       (JSMap.set (activeTracking st) id tracking')
               /\ evs = [(ToAll, tracking_update id tracking')]
           end
  end.
Proof.
  unfold update_location.
  destruct (JSMap.get (connectedOfficers st) id) as [officer|];
    [|intros H; injection H as <- <-; now split].
  destruct (member location "lat") as [lat|]; [|discriminate].
  destruct (member location "lng") as [lng|]; [|discriminate].
  cbn [bind with_connectedOfficers activeTracking].
  intros H. exists lat, lng. split; [reflexivity|]. split; [reflexivity|].
  cbv zeta.
  destruct (JSMap.get (activeTracking st) id) as [tracking|];
    injection H as <- <-; now split.
Qed.

(** ** Facts on Maps and objects *)

Section MoreMapFacts.
Context {V : Type}.
Implicit Types (m : JSMap.t V) (k : string) (v : V).

Lemma map_get_In m k v : JSMap.get m k = Some v -> In (k, v) m.
Proof.
  induction m as [|[k' v'] r IH]; cbn; [discriminate|].
  destruct (String.eqb k k') eqn:E.
  - apply String.eqb_eq in E. subst k'. intros H. injection H as ->. now left.
  - intros H. right. now apply IH.
Qed.

Lemma map_Forall_set (P : string * V -> Prop) m k v :
  Forall P m -> P (k, v) -> Forall P (JSMap.set m k v).
Proof.
  intros Hm Hv. induction Hm as [|[k' v'] r Hx Hr IH]; cbn.
  - now constructor.
  - destruct (String.eqb k k'); constructor; assumption.
Qed.

Lemma map_Forall_delete (P : string * V -> Prop) m k :
  Forall P m -> Forall P (JSMap.delete m k).
Proof.
  intros Hm. unfold JSMap.delete. apply Forall_forall. intros x Hx.
  apply filter_In in Hx. destruct Hx as [Hx _].
  rewrite Forall_forall in Hm. now apply Hm.
Qed.

(** A present key keeps its place, a new one goes last. *)
Lemma map_keys_set_cases m k v :
  JSMap.keys (JSMap.set m k v)
  = match JSMap.get m k with
    | Some _ => JSMap.keys m
    | None => (JSMap.keys m ++ [k])%list
    end.
Proof.
  induction m as [|[k' v'] r IH]; cbn; [reflexivity|].
  destruct (String.eqb k k') eqn:E; cbn.
  - apply String.eqb_eq in E. now subst k'.
  - fold (JSMap.keys (JSMap.set r k v)). rewrite IH.
    now destruct (JSMap.get r k).
Qed.

Lemma map_delete_absent m k : JSMap.get m k = None -> JSMap.delete m k = m.
Proof.
  unfold JSMap.delete. induction m as [|[k' v'] r IH]; cbn; [reflexivity|].
  destruct (String.eqb k k'); [discriminate|]. cbn. intros H. now rewrite IH.
Qed.

Lemma map_delete_delete m k : JSMap.delete (JSMap.delete m k) k = JSMap.delete m k.
Proof. apply map_delete_absent, map_get_delete_same. Qed.

Lemma map_delete_set_absent m k v :
  JSMap.get m k = None -> JSMap.delete (JSMap.set m k v) k = m.
Proof.
  unfold JSMap.delete. induction m as [|[k' v'] r IH]; cbn.
  - now rewrite String.eqb_refl.
  - destruct (String.eqb k k') eqn:E; [discriminate|]. cbn. rewrite E. cbn.
    intros H. now rewrite IH.
Qed.
End MoreMapFacts.

Lemma obj_keys_set_present (o : obj) (k : string) (v : value) :
  In k (map fst o) -> map fst (Obj.set o k v) = map fst o.
Proof.
  induction o as [|[k' v'] r IH]; cbn; [contradiction|].
  destruct (String.eqb k k') eqn:E; cbn.
  - apply String.eqb_eq in E. now subst k'.
  - intros [H|H]; [apply String.eqb_neq in E; congruence|]. now rewrite IH.
Qed.

Lemma moved_keys (o : obj) (klat klng : string) (lat lng : value) :
  In klat (map fst o) -> In klng (map fst o) ->
  map fst (moved o klat klng lat lng) = map fst o.
Proof.
  intros H1 H2. unfold moved.
  rewrite obj_keys_set_present; rewrite obj_keys_set_present; auto.
Qed.

(** [{ ...base, ...o }] is [base] followed by [o] when the property names of
    [o] are distinct and none is one of [base]. *)
Lemma spread_fresh (o base : obj) :
  NoDup (map fst o) -> (forall k, In k (map fst o) -> ~ In k (map fst base)) ->
  Obj.spread base o = (base ++ o)%list.
Proof.
  unfold Obj.spread. revert base.
  induction o as [|[k v] r IH]; intros base Hnd Hfresh; cbn.
  - now rewrite app_nil_r.
  - inversion Hnd as [|? ? Hk Hr]; subst.
    assert (Hset : Obj.set base k v = (base ++ [(k, v)])%list).
    { assert (Hb : ~ In k (map fst base)) by (apply Hfresh; now left).
      clear -Hb. induction base as [|[k' v'] b IHb]; cbn; [reflexivity|].
      destruct (String.eqb k k') eqn:E.
      - apply String.eqb_eq in E. subst k'. exfalso. apply Hb. now left.
      - rewrite IHb; [reflexivity|]. intros H. apply Hb. now right. }
    rewrite Hset, IH; [now rewrite <- app_assoc|exact Hr|].
    intros k' Hk' Hin. rewrite map_app in Hin. apply in_app_or in Hin.
    destruct Hin as [Hin|[<-|[]]]; [|contradiction].
    apply (Hfresh k'); [now right|exact Hin].
Qed.

(** ** The reachable states are well formed *)

Section ForallFacts.
Context {A : Type} (P : A -> Prop).

Lemma Forall_removelast (l : list A) : Forall P l -> Forall P (removelast l).
Proof.
  induction 1 as [|x r Hx Hr IH]; [constructor|].
  destruct r as [|y r']; [constructor|].
  change (removelast (x :: y :: r')) with (x :: removelast (y :: r')).
  now constructor.
Qed.

Lemma Forall_update_nth (i : nat) (x : A) (l : list A) :
  Forall P l -> P x -> Forall P (update_nth i x l).
Proof.
  intros Hl Hx. revert i. induction Hl as [|y r Hy Hr IH]; intros [|j]; cbn;
    constructor; auto.
Qed.

Lemma Forall_nth_error (l : list A) (i : nat) (x : A) :
  Forall P l -> nth_error l i = Some x -> P x.
Proof.
  intros Hl Hx. rewrite Forall_forall in Hl. apply Hl. eapply nth_error_In. exact Hx.
Qed.
End ForallFacts.

Lemma Forall_store_alert (P : obj -> Prop) (alert : obj) (alerts : list obj) :
  Forall P alerts -> P alert -> Forall P (store_alert alert alerts).
Proof.
  intros Hl Hx. unfold store_alert.
  destruct (Nat.ltb MAX_ALERTS (List.length (alert :: alerts)));
    [apply Forall_removelast|]; now constructor.
Qed.

Lemma valid_coordinate_or (v : value) (fallback : float) :
  Num.is_falsy fallback = false ->
  valid_coordinate (JS.or (VNum (JS.parseFloat v)) (VNum fallback)) = true.
Proof.
  intros H. rewrite or_number. cbn [valid_coordinate].
  destruct (Num.is_falsy (JS.parseFloat v)) eqn:E; [now rewrite H|now rewrite E].
Qed.

Lemma not_nan_or_zero (f : float) : not_nan (JS.or (VNum f) (VNum 0)) = true.
Proof.
  rewrite or_number. cbn [not_nan]. unfold Num.is_falsy.
  destruct (is_nan f) eqn:E; cbn [orb]; [reflexivity|].
  destruct (is_zero f); [reflexivity|now rewrite E].
Qed.

Lemma truthy_or (v d : value) : JS.truthy d = true -> JS.truthy (JS.or v d) = true.
Proof. intros H. unfold JS.or. now destruct (JS.truthy v) eqn:E. Qed.

Lemma camera_alert_new_ok e a alert : camera_alert e a = Ok alert -> camera_alert_ok alert.
Proof.
  unfold camera_alert.
  destruct (call_toUpperCase (JS.or (Obj.get a "severity") (VStr "MEDIUM")))
    as [sev|err] eqn:Esev; cbn [bind]; [|discriminate].
  intros H. injection H as <-.
  split; [reflexivity|].
  split; [now eexists|].
  split.
  { exists sev. split; [reflexivity|].
    destruct (JS.or (Obj.get a "severity") (VStr "MEDIUM")); try discriminate.
    cbn in Esev. injection Esev as <-. apply toUpperCase_upper_cased. }
  split; [apply valid_coordinate_or; reflexivity|].
  split; [apply valid_coordinate_or; reflexivity|].
  split; [apply not_nan_or_zero|]. split; [apply not_nan_or_zero|].
  split; [apply not_nan_or_zero|].
  split; [|left; now split].
  repeat constructor; try (apply truthy_or; reflexivity).
Qed.

Lemma sos_alert_new_ok e a alert : sos_alert e a = Ok alert -> sos_alert_ok alert.
Proof.
  unfold sos_alert. intros H. injection H as <-.
  split; [reflexivity|]. split; [now eexists|]. split; [reflexivity|].
  split; [apply valid_coordinate_or; reflexivity|].
  split; [apply valid_coordinate_or; reflexivity|].
  split; [|left; now split].
  repeat constructor; try (apply truthy_or; reflexivity).
Qed.

Lemma mark_resolved_fields e a (l : list string) :
  ~ In "status" l -> ~ In "respondedAt" l ->
  Forall (fun k => JS.truthy (Obj.get a k) = true) l ->
  Forall (fun k => JS.truthy (Obj.get (mark_resolved e a) k) = true) l.
Proof.
  intros H1 H2 H. rewrite Forall_forall in *. intros k Hk.
  rewrite mark_resolved_other; [now apply H| |]; intros ->; contradiction.
Qed.

Lemma mark_resolved_consistent e a unstamped : status_consistent unstamped (mark_resolved e a).
Proof.
  right. split; [apply mark_resolved_status|].
  eexists. apply mark_resolved_respondedAt.
Qed.

Lemma mark_resolved_camera_ok e a : camera_alert_ok a -> camera_alert_ok (mark_resolved e a).
Proof.
  intros (Ht & Hid & Hsev & Hlat & Hlng & Hpc & Hmi & Hbl & Htext & _).
  unfold camera_alert_ok. rewrite !mark_resolved_other by discriminate.
  repeat (split; [assumption|]).
  split; [|apply mark_resolved_consistent].
  apply mark_resolved_fields; [| |exact Htext]; cbn; intuition discriminate.
Qed.

Lemma mark_resolved_sos_ok e a : sos_alert_ok a -> sos_alert_ok (mark_resolved e a).
Proof.
  intros (Ht & Hid & Hsev & Hlat & Hlng & Htext & _).
  unfold sos_alert_ok. rewrite !mark_resolved_other by discriminate.
  repeat (split; [assumption|]).
  split; [|apply mark_resolved_consistent].
  apply mark_resolved_fields; [| |exact Htext]; cbn; intuition discriminate.
Qed.

Lemma resolved_nth_ok (P : obj -> Prop) (p : obj -> bool) e (alerts : list obj) index :
  (forall a, P a -> P (mark_resolved e a)) ->
  Forall P alerts -> findIndex p alerts = Some index ->
  Forall P (update_nth index (mark_resolved e (nth index alerts [])) alerts).
Proof.
  intros Hmark Hall Hfind.
  destruct (findIndex_Some _ _ _ Hfind) as (a & Hnth & _).
  rewrite (nth_error_nth_default _ _ _ _ Hnth).
  apply Forall_update_nth; [exact Hall|].
  apply Hmark. exact (Forall_nth_error _ _ _ _ Hall Hnth).
Qed.

Lemma well_formed_init : well_formed init.
Proof. constructor; cbn; constructor. Qed.

Lemma send_alert_wf e k a st : well_formed st -> well_formed (fst (fst (send_alert e k a st))).
Proof.
  intros [Hc Hs Hok Htk Hp Hse]. unfold send_alert.
  destruct (negb (JS.strict_eq k (VStr API_KEY))); [now constructor|].
  destruct (camera_alert e a) as [alert|err] eqn:E; [|now constructor].
  constructor; cbn [fst with_cameraAlerts cameraAlerts sosAlerts activeTracking
                    connectedOfficers]; try assumption.
  apply Forall_store_alert; [exact Hc|exact (camera_alert_new_ok _ _ _ E)].
Qed.

Lemma send_sos_alert_wf e k a st :
  well_formed st -> well_formed (fst (fst (send_sos_alert e k a st))).
Proof.
  intros [Hc Hs Hok Htk Hp Hse]. unfold send_sos_alert.
  destruct (negb (JS.strict_eq k (VStr API_KEY))); [now constructor|].
  destruct (sos_alert e a) as [alert|err] eqn:E; [|now constructor].
  constructor; cbn [fst with_sosAlerts cameraAlerts sosAlerts activeTracking
                    connectedOfficers]; try assumption.
  apply Forall_store_alert; [exact Hs|exact (sos_alert_new_ok _ _ _ E)].
Qed.

Lemma resolve_alert_wf e b st : well_formed st -> well_formed (fst (fst (resolve_alert e b st))).
Proof.
  intros [Hc Hs Hok Htk Hp Hse]. unfold resolve_alert, selected, with_selected.
  destruct (JS.strict_eq (Obj.get b "alertType") (VStr "sos"));
    match goal with |- context [findIndex ?p ?l] => destruct (findIndex p l) eqn:Hfind end;
    constructor; cbn [fst with_sosAlerts with_cameraAlerts cameraAlerts sosAlerts
                      activeTracking connectedOfficers]; try assumption.
  - eapply resolved_nth_ok; [apply mark_resolved_sos_ok|exact Hs|exact Hfind].
  - eapply resolved_nth_ok; [apply mark_resolved_camera_ok|exact Hc|exact Hfind].
Qed.

Lemma clear_alerts_wf b st : well_formed st -> well_formed (fst (fst (clear_alerts b st))).
Proof.
  intros [Hc Hs Hok Htk Hp Hse]. unfold clear_alerts.
  destruct (JS.strict_eq (Obj.get b "alertType") (VStr "camera"));
    [|destruct (JS.strict_eq (Obj.get b "alertType") (VStr "sos"))];
    constructor; cbn; try assumption; constructor.
Qed.

Lemma step_wf e i st : well_formed st -> well_formed (fst (step e i st)).
Proof.
  intros H. destruct i; cbn [step]; rewrite ?of_http_fst.
  - now apply send_alert_wf.
  - now apply send_sos_alert_wf.
  - now apply resolve_alert_wf.
  - now apply clear_alerts_wf.
  - exact H.
  - destruct (officer_login e id officer st) as [[st' evs]|err] eqn:E; [|exact H].
    destruct (officer_login_inv _ _ _ _ _ _ E) as (name & lat & lng & unit & _ & _ & _ & _ & Hst).
    cbv zeta in Hst. destruct Hst as [-> _]. destruct H as [Hc Hs Hok Htk Hp Hse].
    constructor; cbn [of_socket fst with_connectedOfficers cameraAlerts sosAlerts
                      activeTracking connectedOfficers]; try assumption.
    + now apply map_keys_set.
    + apply map_Forall_set; [exact Hp|reflexivity].
  - destruct (start_tracking e id data st) as [[st' evs]|err] eqn:E; [|exact H].
    destruct (start_tracking_inv _ _ _ _ _ _ E) as (v1 & v2 & v3 & v4 & Hst).
    cbv zeta in Hst. destruct Hst as (_ & -> & _). destruct H as [Hc Hs Hok Htk Hp Hse].
    constructor; cbn [of_socket fst with_activeTracking cameraAlerts sosAlerts
                      activeTracking connectedOfficers]; try assumption.
    + now apply map_keys_set.
    + apply map_Forall_set; [exact Hse|reflexivity].
  - destruct (update_location id location st) as [[st' evs]|err] eqn:E; [|exact H].
    apply update_location_inv in E. cbn [of_socket fst].
    destruct (JSMap.get (connectedOfficers st) id) as [officer|] eqn:Eo;
      [|destruct E as [-> _]; exact H].
    destruct E as (lat & lng & _ & _ & E). cbv zeta in E.
    destruct H as [Hc Hs Hok Htk Hp Hse].
    assert (Hofficer : map fst officer = presence_keys)
      by exact (proj1 (Forall_forall _ _) Hp _ (map_get_In _ _ _ Eo)).
    assert (Hp' : Forall (fun kv => map fst (snd kv) = presence_keys)
                    (JSMap.set (connectedOfficers st) id (moved officer "lat" "lng" lat lng))).
    { apply map_Forall_set; [exact Hp|]. cbn [snd].
      rewrite moved_keys; [exact Hofficer| |]; rewrite Hofficer; cbn; auto. }
    destruct (JSMap.get (activeTracking st) id) as [tracking|] eqn:Et; destruct E as [-> _];
      constructor; cbn [with_activeTracking with_connectedOfficers cameraAlerts sosAlerts
                        activeTracking connectedOfficers];
      try assumption; try (now apply map_keys_set).
    assert (Htracking : map fst tracking = session_keys)
      by exact (proj1 (Forall_forall _ _) Hse _ (map_get_In _ _ _ Et)).
    apply map_Forall_set; [exact Hse|]. cbn [snd].
    rewrite moved_keys; [exact Htracking| |]; rewrite Htracking; cbn; auto 10.
  - destruct H as [Hc Hs Hok Htk Hp Hse].
    constructor; cbn; try assumption;
      [now apply map_keys_delete_NoDup|now apply map_Forall_delete].
  - destruct H as [Hc Hs Hok Htk Hp Hse].
    constructor; cbn; try assumption;
      try (now apply map_keys_delete_NoDup); now apply map_Forall_delete.
Qed.

Lemma run_wf steps : forall st, well_formed st -> well_formed (run st steps).
Proof.
  induction steps as [|[e i] rest IH]; intros st H; [exact H|].
  cbn [run]. apply IH. now apply step_wf.
Qed.

Lemma reachable_wf history : well_formed (run init history).
Proof. apply run_wf, well_formed_init. Qed.

(** ** Invariants of the stored alerts *)

(** X1.  In every state the server reaches, whatever the requests held, the
    [lat] and [lng] of every stored alert, camera or SOS, are numbers that
    are neither [NaN] nor zero, and the [personCount], [motionIntensity]
    and [brightnessLevel] of every camera alert are numbers that are not
    [NaN]; resolutions keep them so. *)
Theorem stored_alerts_have_valid_numbers :
  forall history : list (env * input),
    let st := run init history in
    Forall (fun a => valid_coordinate (Obj.get a "lat") = true
                     /\ valid_coordinate (Obj.get a "lng") = true)
           (cameraAlerts st ++ sosAlerts st)
    /\ Forall (fun a => not_nan (Obj.get a "personCount") = true
                        /\ not_nan (Obj.get a "motionIntensity") = true
                        /\ not_nan (Obj.get a "brightnessLevel") = true)
              (cameraAlerts st).
Proof.
  intros history st. destruct (reachable_wf history) as [Hc Hs _ _ _ _].
  fold st in Hc, Hs. split.
  - apply Forall_app. split.
    + eapply Forall_impl; [|exact Hc]. intros a H. unfold camera_alert_ok in H. tauto.
    + eapply Forall_impl; [|exact Hs]. intros a H. unfold sos_alert_ok in H. tauto.
  - eapply Forall_impl; [|exact Hc]. intros a H. unfold camera_alert_ok in H. tauto.
Qed.

Lemma stored_alerts_have_valid_numbers_witness :
  map (fun a => (Obj.get a "lat", Obj.get a "lng", Obj.get a "personCount"))
      (cameraAlerts Scenario.reached)
    = [(VNum 12.1, VNum (JS.parseFloat (VStr "77.2")), VNum 0);
       (VNum FALLBACK_LAT, VNum FALLBACK_LNG, VNum 0)]
  /\ Forall (fun a => valid_coordinate (Obj.get a "lat") = true
                      /\ valid_coordinate (Obj.get a "lng") = true)
            (cameraAlerts Scenario.reached ++ sosAlerts Scenario.reached).
Proof.
  split; [vm_compute; reflexivity|].
  exact (proj1 (stored_alerts_have_valid_numbers Scenario.history)).
Defined.

(** X2.  In every state the server reaches, a stored camera alert is either
    [active] with [respondedAt] still [null], or [resolved] with a string
    in [respondedAt]; a stored SOS alert is either [active] with no
    [respondedAt] property, or [resolved] with a string in it.  No alert is
    resolved without a stamp or stamped without being resolved. *)
Theorem stored_alerts_status_consistent :
  forall history : list (env * input),
    let st := run init history in
    Forall (status_consistent VNull) (cameraAlerts st)
    /\ Forall (status_consistent VUndefined) (sosAlerts st).
Proof.
  intros history st. destruct (reachable_wf history) as [Hc Hs _ _ _ _].
  fold st in Hc, Hs. split.
  - eapply Forall_impl; [|exact Hc]. intros a H. unfold camera_alert_ok in H. tauto.
  - eapply Forall_impl; [|exact Hs]. intros a H. unfold sos_alert_ok in H. tauto.
Qed.

Lemma stored_alerts_status_consistent_witness :
  map (fun a => (Obj.get a "status", Obj.get a "respondedAt")) (cameraAlerts Scenario.reached)
    = [(VStr "active", VNull); (VStr "resolved", VStr "2023-11-14T22:14:20.000Z")]
  /\ Forall (status_consistent VNull) (cameraAlerts Scenario.reached).
Proof.
  split; [vm_compute; reflexivity|].
  exact (proj1 (stored_alerts_status_consistent Scenario.history)).
Defined.

(** X3.  In every state the server reaches, every text property of a stored
    alert that the handler backs with a default is truthy: an empty,
    [null] or absent [place], [cameraId], [userName] and so on of the
    request never reaches the store.  The severity of a camera alert is a
    string with no lower-case letter and that of an SOS alert is
    [CRITICAL]. *)
Theorem stored_alerts_have_text :
  forall history : list (env * input),
    let st := run init history in
    Forall (fun a => Forall (fun k => JS.truthy (Obj.get a k) = true) camera_text_fields
                     /\ exists s, Obj.get a "severity" = VStr s /\ upper_cased s)
           (cameraAlerts st)
    /\ Forall (fun a => Forall (fun k => JS.truthy (Obj.get a k) = true) sos_text_fields
                        /\ Obj.get a "severity" = VStr "CRITICAL")
              (sosAlerts st).
Proof.
  intros history st. destruct (reachable_wf history) as [Hc Hs _ _ _ _].
  fold st in Hc, Hs. split.
  - eapply Forall_impl; [|exact Hc]. intros a H. unfold camera_alert_ok in H. tauto.
  - eapply Forall_impl; [|exact Hs]. intros a H. unfold sos_alert_ok in H. tauto.
Qed.

Lemma stored_alerts_have_text_witness :
  map (fun a => (Obj.get a "place", Obj.get a "behavior", Obj.get a "severity"))
      (cameraAlerts Scenario.reached)
    = [(VStr "Main St", VStr "suspicious", VStr "HIGH");
       (VStr "Unknown Location", VStr "high", VStr "CRITICAL")]
  /\ map (fun a => Obj.get a "userName") (sosAlerts Scenario.reached) = [VStr "Anonymous"]
  /\ Forall (fun a => Forall (fun k => JS.truthy (Obj.get a k) = true) sos_text_fields
                      /\ Obj.get a "severity" = VStr "CRITICAL")
            (sosAlerts Scenario.reached).
Proof.
  split; [vm_compute; reflexivity|]. split; [vm_compute; reflexivity|].
  exact (proj2 (stored_alerts_have_text Scenario.history)).
Defined.

(** ** The two kinds of alerts do not mix *)

Lemma findIndex_None {A : Type} (p : A -> bool) (l : list A) :
  Forall (fun x => p x = false) l -> findIndex p l = None.
Proof.
  induction 1 as [|x r Hx Hr IH]; [reflexivity|].
  cbn [findIndex]. now rewrite Hx, IH.
Qed.

Lemma prefixes_differ (r r' : string) :
  JS.strict_eq (VStr ("SOS-ALERT-" ++ r)) (VStr ("CAM-ALERT-" ++ r')) = false
  /\ JS.strict_eq (VStr ("CAM-ALERT-" ++ r)) (VStr ("SOS-ALERT-" ++ r')) = false.
Proof. split; reflexivity. Qed.

(** X4.  In every state the server reaches, the camera collection holds
    only alerts of type [camera] whose id starts with [CAM-ALERT-] and the
    SOS collection only alerts of type [sos] whose id starts with
    [SOS-ALERT-].  So a resolve request that names the id of a stored
    camera alert together with [alertType] [sos], or the id of a stored SOS
    alert with any other [alertType], is answered with status 404 and
    changes nothing: an alert can only be resolved under its own kind. *)
Theorem kinds_do_not_mix :
  forall (history : list (env * input)) (e : env) (b : obj),
    let st := run init history in
    Forall (fun a => Obj.get a "type" = VStr "camera"
                     /\ has_prefix "CAM-ALERT-" (Obj.get a "id")) (cameraAlerts st)
    /\ Forall (fun a => Obj.get a "type" = VStr "sos"
                        /\ has_prefix "SOS-ALERT-" (Obj.get a "id")) (sosAlerts st)
    /\ (forall alert, In alert (cameraAlerts st) ->
          Obj.get b "alertId" = Obj.get alert "id" ->
          Obj.get b "alertType" = VStr "sos" ->
          resolve_alert e b st = (st, respond 404 (Failure "Alert not found"), []))
    /\ (forall alert, In alert (sosAlerts st) ->
          Obj.get b "alertId" = Obj.get alert "id" ->
          Obj.get b "alertType" <> VStr "sos" ->
          resolve_alert e b st = (st, respond 404 (Failure "Alert not found"), [])).
Proof.
  intros history e b st. destruct (reachable_wf history) as [Hc Hs _ _ _ _].
  fold st in Hc, Hs.
  assert (Hcam : Forall (fun a => Obj.get a "type" = VStr "camera"
                                  /\ has_prefix "CAM-ALERT-" (Obj.get a "id"))
                   (cameraAlerts st))
    by (eapply Forall_impl; [|exact Hc]; intros a H; unfold camera_alert_ok in H; tauto).
  assert (Hsos : Forall (fun a => Obj.get a "type" = VStr "sos"
                                  /\ has_prefix "SOS-ALERT-" (Obj.get a "id"))
                   (sosAlerts st))
    by (eapply Forall_impl; [|exact Hs]; intros a H; unfold sos_alert_ok in H; tauto).
  split; [exact Hcam|]. split; [exact Hsos|]. split.
  - intros alert Hin Hid Htype.
    rewrite Forall_forall in Hcam. destruct (Hcam _ Hin) as [_ [r Hr]].
    unfold resolve_alert, selected. rewrite Htype, Hid, Hr.
    cbn [JS.strict_eq String.eqb Ascii.eqb Bool.eqb].
    rewrite findIndex_None; [reflexivity|].
    eapply Forall_impl; [|exact Hsos]. intros a [_ [r' ->]]. apply prefixes_differ.
  - intros alert Hin Hid Htype.
    rewrite Forall_forall in Hsos. destruct (Hsos _ Hin) as [_ [r Hr]].
    unfold resolve_alert, selected.
    rewrite (strict_eq_string_false _ _ Htype), Hid, Hr.
    rewrite findIndex_None; [reflexivity|].
    eapply Forall_impl; [|exact Hcam]. intros a [_ [r' ->]]. apply prefixes_differ.
Qed.

Lemma kinds_do_not_mix_witness :
  resolve_alert Sample.e1
    [("alertId", VStr "CAM-ALERT-1700000060000-z81hq2m4c"); ("alertType", VStr "sos")]
    Scenario.reached
    = (Scenario.reached, respond 404 (Failure "Alert not found"), [])
  /\ resolve_alert Sample.e1
       [("alertId", VStr "SOS-ALERT-1700000060000-z81hq2m4c"); ("alertType", VStr "SOS")]
       Scenario.reached
     = (Scenario.reached, respond 404 (Failure "Alert not found"), []).
Proof.
  destruct (cameraAlerts Scenario.reached) as [|cam rest] eqn:Ec;
    [vm_compute in Ec; discriminate Ec|].
  destruct (sosAlerts Scenario.reached) as [|sos rest'] eqn:Es;
    [vm_compute in Es; discriminate Es|].
  split.
  - destruct (kinds_do_not_mix Scenario.history Sample.e1
                [("alertId", VStr "CAM-ALERT-1700000060000-z81hq2m4c");
                 ("alertType", VStr "sos")]) as (_ & _ & H & _).
    apply (H cam).
    + fold Scenario.reached. rewrite Ec. now left.
    + vm_compute in Ec. injection Ec as <- _. reflexivity.
    + reflexivity.
  - destruct (kinds_do_not_mix Scenario.history Sample.e1
                [("alertId", VStr "SOS-ALERT-1700000060000-z81hq2m4c");
                 ("alertType", VStr "SOS")]) as (_ & _ & _ & H).
    apply (H sos).
    + fold Scenario.reached. rewrite Es. now left.
    + vm_compute in Es. injection Es as <- _. reflexivity.
    + discriminate.
Defined.

(** ** Connections *)

(** X5.  In every state the server reaches, no connection id occurs twice
    among the presences, nor among the tracking sessions: a connection has
    at most one presence and at most one session, a repeated login or
    [start_tracking] replacing the entry it finds.  The officer and
    tracking counts of [GET /health] therefore count connections. *)
Theorem one_entry_per_connection :
  forall history : list (env * input),
    let st := run init history in
    NoDup (JSMap.keys (connectedOfficers st))
    /\ NoDup (JSMap.keys (activeTracking st))
    /\ (forall id officer,
          In (id, officer) (JSMap.entries (connectedOfficers st)) <->
          JSMap.get (connectedOfficers st) id = Some officer)
    /\ (forall id session,
          In (id, session) (JSMap.entries (activeTracking st)) <->
          JSMap.get (activeTracking st) id = Some session).
Proof.
  intros history st. destruct (reachable_wf history) as [_ _ Hok Htk _ _].
  fold st in Hok, Htk.
  assert (Hunique : forall (m : JSMap.t obj), NoDup (JSMap.keys m) ->
            forall k v, In (k, v) m <-> JSMap.get m k = Some v).
  { intros m Hnd k v. split; [|apply map_get_In].
    induction m as [|[k' v'] r IH]; cbn; [contradiction|].
    inversion Hnd as [|? ? Hk Hr]; subst.
    intros [H|H].
    - injection H as -> ->. now rewrite String.eqb_refl.
    - destruct (String.eqb k k') eqn:E; [|now apply IH].
      apply String.eqb_eq in E. subst k'. exfalso. apply Hk.
      change (In k (map fst r)). apply in_map_iff. now exists (k, v). }
  split; [exact Hok|]. split; [exact Htk|].
  split; intros id x; apply Hunique; assumption.
Qed.

Lemma one_entry_per_connection_witness :
  JSMap.keys (connectedOfficers Scenario.reached) = ["sock-1"; "sock-2"]
  /\ JSMap.keys (activeTracking Scenario.reached) = ["sock-3"; "sock-1"]
  /\ NoDup (JSMap.keys (connectedOfficers Scenario.reached)).
Proof.
  split; [vm_compute; reflexivity|]. split; [vm_compute; reflexivity|].
  exact (proj1 (one_entry_per_connection Scenario.history)).
Defined.

(** X6.  An HTTP request never changes the presences or the tracking
    sessions, and a socket event never changes an alert collection,
    whatever the outcome of the handler. *)
Theorem http_and_socket_state_are_separate :
  forall (e : env) (i : input) (st : state),
    let st' := fst (step e i st) in
    if is_http i
    then connectedOfficers st' = connectedOfficers st
         /\ activeTracking st' = activeTracking st
    else cameraAlerts st' = cameraAlerts st /\ sosAlerts st' = sosAlerts st.
Proof.
  intros e i st. destruct i; cbn [is_http step]; rewrite ?of_http_fst.
  - unfold send_alert. destruct (negb _); [now split|].
    destruct (camera_alert e a); now split.
  - unfold send_sos_alert. destruct (negb _); now split.
  - unfold resolve_alert, with_selected.
    match goal with |- context [findIndex ?p ?l] => destruct (findIndex p l) end;
      [|now split].
    destruct (JS.strict_eq (Obj.get b "alertType") (VStr "sos")); now split.
  - unfold clear_alerts.
    destruct (JS.strict_eq (Obj.get b "alertType") (VStr "camera")); [now split|].
    destruct (JS.strict_eq (Obj.get b "alertType") (VStr "sos")); now split.
  - now split.
  - destruct (officer_login e id officer st) as [[st' evs]|err] eqn:E; [|now split].
    destruct (officer_login_inv _ _ _ _ _ _ E) as (? & ? & ? & ? & _ & _ & _ & _ & Hst).
    cbv zeta in Hst. destruct Hst as [-> _]. now split.
  - destruct (start_tracking e id data st) as [[st' evs]|err] eqn:E; [|now split].
    destruct (start_tracking_inv _ _ _ _ _ _ E) as (? & ? & ? & ? & Hst).
    cbv zeta in Hst. destruct Hst as (_ & -> & _). now split.
  - destruct (update_location id location st) as [[st' evs]|err] eqn:E; [|now split].
    apply update_location_inv in E. cbn [of_socket fst].
    destruct (JSMap.get (connectedOfficers st) id); [|destruct E as [-> _]; now split].
    destruct E as (lat & lng & _ & _ & E). cbv zeta in E.
    destruct (JSMap.get (activeTracking st) id); destruct E as [-> _]; now split.
  - now split.
  - now split.
Qed.

(** X7.  Every event a handler emits goes to all connections, except the
    two snapshots sent on connection and the acknowledgment of
    [start_tracking], which go to the connection the input came from and
    to no other; those three messages are never broadcast.  An HTTP
    request emits broadcasts only. *)
Theorem events_go_to_all_or_to_the_sender :
  forall (e : env) (i : input) (st : state),
    Forall (fun ev =>
              match fst ev with
              | ToSocket id => sender i = Some id /\ is_private (snd ev) = true
              | ToAll => is_private (snd ev) = false
              end)
           (emitted (snd (step e i st))).
Proof.
  intros e i st. destruct i; cbn [step sender].
  - unfold send_alert. destruct (negb _); [constructor|].
    destruct (camera_alert e a); repeat constructor.
  - unfold send_sos_alert. destruct (negb _); repeat constructor.
  - unfold resolve_alert.
    match goal with |- context [findIndex ?p ?l] => destruct (findIndex p l) end;
      repeat constructor.
  - unfold clear_alerts.
    destruct (JS.strict_eq (Obj.get b "alertType") (VStr "camera")); [repeat constructor|].
    destruct (JS.strict_eq (Obj.get b "alertType") (VStr "sos")); repeat constructor.
  - repeat constructor.
  - destruct (officer_login e id officer st) as [[st' evs]|err] eqn:E; [|constructor].
    destruct (officer_login_inv _ _ _ _ _ _ E) as (? & ? & ? & ? & _ & _ & _ & _ & Hst).
    cbv zeta in Hst. destruct Hst as [_ ->]. repeat constructor.
  - destruct (start_tracking e id data st) as [[st' evs]|err] eqn:E; [|constructor].
    destruct (start_tracking_inv _ _ _ _ _ _ E) as (? & ? & ? & ? & Hst).
    cbv zeta in Hst. destruct Hst as (_ & _ & ->). repeat constructor.
  - destruct (update_location id location st) as [[st' evs]|err] eqn:E; [|constructor].
    apply update_location_inv in E. cbn [of_socket snd emitted].
    destruct (JSMap.get (connectedOfficers st) id); [|destruct E as [_ ->]; constructor].
    destruct E as (lat & lng & _ & _ & E). cbv zeta in E.
    destruct (JSMap.get (activeTracking st) id); destruct E as [_ ->]; repeat constructor.
  - repeat constructor.
  - constructor.
Qed.

Lemma events_go_to_all_or_to_the_sender_witness :
  map fst (emitted (snd (step Sample.e1 (StartTracking "sock-2" (AObj Sample.track1))
                           Scenario.reached)))
    = [ToSocket "sock-2"; ToAll]
  /\ Forall (fun ev =>
               match fst ev with
               | ToSocket id => Some "sock-2" = Some id /\ is_private (snd ev) = true
               | ToAll => is_private (snd ev) = false
               end)
            (emitted (snd (step Sample.e1 (StartTracking "sock-2" (AObj Sample.track1))
                             Scenario.reached))).
Proof.
  split; [vm_compute; reflexivity|].
  exact (events_go_to_all_or_to_the_sender Sample.e1
           (StartTracking "sock-2" (AObj Sample.track1)) Scenario.reached).
Defined.

(** X9.  [stop_tracking] removes the session of its connection and only
    that: the other sessions, the presences and the alerts stay.  It
    broadcasts [tracking_stopped] to all in every case, also for a
    connection that had no session, where the state does not change.
    Stopping twice leaves the state of stopping once, and for a connection
    without a session [start_tracking] followed by [stop_tracking] gives
    back the state from before. *)
Theorem stop_tracking_effect :
  forall (e : env) (id : string) (data : arg) (st : state),
    let st' := fst (stop_tracking id st) in
    JSMap.get (activeTracking st') id = None
    /\ (forall id', id' <> id ->
          JSMap.get (activeTracking st') id' = JSMap.get (activeTracking st) id')
    /\ connectedOfficers st' = connectedOfficers st
    /\ cameraAlerts st' = cameraAlerts st
    /\ sosAlerts st' = sosAlerts st
    /\ snd (stop_tracking id st) = [(ToAll, tracking_stopped id)]
    /\ fst (stop_tracking id st') = st'
    /\ (JSMap.get (activeTracking st) id = None ->
          st' = st
          /\ forall st1 evs,
               start_tracking e id data st = Ok (st1, evs) ->
               fst (stop_tracking id st1) = st).
Proof.
  intros e id data st st'. unfold st', stop_tracking. cbn [fst snd].
  split; [apply map_get_delete_same|].
  split; [intros id' Hne; apply map_get_delete_other; congruence|].
  do 4 (split; [reflexivity|]).
  split.
  - cbn [with_activeTracking activeTracking cameraAlerts sosAlerts connectedOfficers].
    now rewrite map_delete_delete.
  - intros Hnone. split.
    + rewrite map_delete_absent by exact Hnone. now destruct st.
    + intros st1 evs Hstart.
      destruct (start_tracking_inv _ _ _ _ _ _ Hstart) as (? & ? & ? & ? & Hst).
      cbv zeta in Hst. destruct Hst as (_ & -> & _).
      cbn [with_activeTracking activeTracking cameraAlerts sosAlerts connectedOfficers].
      rewrite map_delete_set_absent by exact Hnone. now destruct st.
Qed.

Lemma stop_tracking_effect_witness :
  JSMap.get (activeTracking Scenario.reached) "sock-2" = None
  /\ stop_tracking "sock-2" Scenario.reached
     = (Scenario.reached, [(ToAll, tracking_stopped "sock-2")])
  /\ exists st1 evs,
       start_tracking Sample.e1 "sock-2" (AObj Sample.track1) Scenario.reached = Ok (st1, evs)
       /\ JSMap.keys (activeTracking st1) = ["sock-3"; "sock-1"; "sock-2"]
       /\ fst (stop_tracking "sock-2" st1) = Scenario.reached.
Proof.
  assert (Hnone : JSMap.get (activeTracking Scenario.reached) "sock-2" = None)
    by (vm_compute; reflexivity).
  destruct (stop_tracking_effect Sample.e1 "sock-2" (AObj Sample.track1) Scenario.reached)
    as (_ & _ & _ & _ & _ & Hevs & _ & H).
  destruct (H Hnone) as [Hsame Hback].
  split; [exact Hnone|]. split.
  - rewrite (surjective_pairing (stop_tracking "sock-2" Scenario.reached)).
    now rewrite Hsame, Hevs.
  - destruct (start_tracking Sample.e1 "sock-2" (AObj Sample.track1) Scenario.reached)
      as [[st1 evs]|err] eqn:E; [|vm_compute in E; discriminate E].
    exists st1, evs. split; [reflexivity|]. split; [|exact (Hback st1 evs eq_refl)].
    vm_compute in E. injection E as <- _. reflexivity.
Defined.

(** X10.  A position report from a connection that has a presence but no
    tracking session updates the presence's [lat] and [lng] in place and
    emits nothing: neither the roster nor a tracking update is broadcast,
    so the other connections do not learn the new position.  This is the
    case in particular after [stop_tracking]. *)
Theorem untracked_position_reports_are_silent :
  forall (id : string) (loc officer : obj) (st : state),
    JSMap.get (connectedOfficers st) id = Some officer ->
    let officer' := moved officer "lat" "lng" (Obj.get loc "lat") (Obj.get loc "lng") in
    let officers' := JSMap.set (connectedOfficers st) id officer' in
    (JSMap.get (activeTracking st) id = None ->
       update_location id (AObj loc) st = Ok (with_connectedOfficers st officers', []))
    /\ update_location id (AObj loc) (fst (stop_tracking id st))
       = Ok (with_connectedOfficers (fst (stop_tracking id st)) officers', [])
    /\ JSMap.keys officers' = JSMap.keys (connectedOfficers st)
    /\ JSMap.get officers' id = Some officer'
    /\ Obj.get officer' "lat" = VNum (JS.parseFloat (Obj.get loc "lat"))
    /\ Obj.get officer' "lng" = VNum (JS.parseFloat (Obj.get loc "lng"))
    /\ (forall k, k <> "lat" -> k <> "lng" -> Obj.get officer' k = Obj.get officer k).
Proof.
  intros id loc officer st Hoff officer' officers'.
  assert (Hsilent : forall st0,
            JSMap.get (connectedOfficers st0) id = Some officer ->
            JSMap.get (activeTracking st0) id = None ->
            update_location id (AObj loc) st0
              = Ok (with_connectedOfficers st0
                      (JSMap.set (connectedOfficers st0) id officer'), [])).
  { intros st0 H0 Hnone. unfold update_location. rewrite H0. cbn [member bind].
    cbn [with_connectedOfficers activeTracking]. now rewrite Hnone. }
  split; [intros Hnone; now apply Hsilent|].
  split; [apply Hsilent; [exact Hoff|apply map_get_delete_same]|].
  split; [unfold officers'; rewrite map_keys_set_cases; now rewrite Hoff|].
  split; [apply map_get_set_same|].
  unfold officer', moved.
  split; [rewrite get_set_other by discriminate; apply get_set_same|].
  split; [apply get_set_same|].
  intros k H1 H2. rewrite !get_set_other by congruence. reflexivity.
Qed.

Lemma untracked_position_reports_are_silent_witness :
  exists st' officer',
    update_location "sock-2" (AObj [("lat", VStr "11.5"); ("lng", VNum 77)]) Scenario.reached
      = Ok (st', [])
    /\ JSMap.get (connectedOfficers st') "sock-2" = Some officer'
    /\ Obj.get officer' "lat" = VNum 11.5
    /\ Obj.get officer' "name" = VStr "Asha".
Proof.
  destruct (JSMap.get (connectedOfficers Scenario.reached) "sock-2") as [officer|] eqn:E;
    [|vm_compute in E; discriminate E].
  destruct (untracked_position_reports_are_silent "sock-2"
              [("lat", VStr "11.5"); ("lng", VNum 77)] officer Scenario.reached E)
    as (Hupd & _).
  do 2 eexists. split; [apply Hupd; vm_compute; reflexivity|].
  cbn [with_connectedOfficers connectedOfficers].
  split; [apply map_get_set_same|].
  vm_compute in E. injection E as <-. split; vm_compute; reflexivity.
Defined.

(** X11.  [officer_login] with an object payload stores for the connection
    a presence built from the payload alone, replacing, not merging with,
    the one it had: a connection already in the roster keeps its place, a
    new one goes last, and the other presences stay.  The stored [lat] and
    [lng] are the payload's when truthy, as they are (a string is not
    parsed), and the fallback otherwise, so never zero, [NaN], empty or
    [null].  The tracking sessions are not touched: a running session keeps
    the responder position it had.  The whole roster is broadcast to all. *)
Theorem officer_login_upsert :
  forall (e : env) (id : string) (o : obj) (st : state),
    exists presence : obj,
      let officers := JSMap.set (connectedOfficers st) id presence in
      officer_login e id (AObj o) st
        = Ok (with_connectedOfficers st officers,
              [(ToAll, officers_updated (JSMap.values officers))])
      /\ presence
         = [ ("name", JS.or (Obj.get o "name") (VStr "Officer"));
             ("lat", JS.or (Obj.get o "lat") (VNum FALLBACK_LAT));
             ("lng", JS.or (Obj.get o "lng") (VNum FALLBACK_LNG));
             ("unit", JS.or (Obj.get o "unit") (VStr "Unit-01"));
             ("status", VStr "available");
             ("loginTime", VStr (iso_now e)) ]
      /\ JSMap.get officers id = Some presence
      /\ (forall id', id' <> id ->
            JSMap.get officers id' = JSMap.get (connectedOfficers st) id')
      /\ JSMap.keys officers
         = match JSMap.get (connectedOfficers st) id with
           | Some _ => JSMap.keys (connectedOfficers st)
           | None => (JSMap.keys (connectedOfficers st) ++ [id])%list
           end
      /\ List.length (JSMap.values officers) = List.length (JSMap.keys officers)
      /\ JS.truthy (Obj.get presence "lat") = true
      /\ JS.truthy (Obj.get presence "lng") = true
      /\ (JS.truthy (Obj.get o "lat") = true -> Obj.get presence "lat" = Obj.get o "lat")
      /\ (JS.truthy (Obj.get o "lat") = false -> Obj.get presence "lat" = VNum FALLBACK_LAT)
      /\ activeTracking (with_connectedOfficers st officers) = activeTracking st.
Proof.
  intros e id o st. eexists. cbv zeta.
  split; [reflexivity|]. split; [reflexivity|].
  split; [apply map_get_set_same|].
  split; [intros id' Hne; apply map_get_set_other; congruence|].
  split; [apply map_keys_set_cases|].
  split; [unfold JSMap.values, JSMap.keys; now rewrite !length_map|].
  cbn [Obj.get String.eqb Ascii.eqb Bool.eqb].
  split; [apply truthy_or; reflexivity|].
  split; [apply truthy_or; reflexivity|].
  split; [intros H; now apply or_truthy|].
  split; [intros H; now apply or_falsy|reflexivity].
Qed.

Lemma officer_login_upsert_witness :
  exists st' roster,
    officer_login Sample.e1 "sock-1"
      (AObj [("name", VStr "Ravi"); ("lat", VNum 0); ("lng", VStr "east")]) Scenario.reached
      = Ok (st', [(ToAll, officers_updated roster)])
    /\ JSMap.keys (connectedOfficers st') = ["sock-1"; "sock-2"]
    /\ map (fun p => (Obj.get p "name", Obj.get p "lat", Obj.get p "lng", Obj.get p "unit"))
           roster
       = [(VStr "Ravi", VNum FALLBACK_LAT, VStr "east", VStr "Unit-01");
          (VStr "Asha", VNum 11.02, VNum 76.95, VStr "Unit-07")].
Proof.
  destruct (officer_login_upsert Sample.e1 "sock-1"
              [("name", VStr "Ravi"); ("lat", VNum 0); ("lng", VStr "east")]
              Scenario.reached) as (presence & Hlogin & -> & _).
  do 2 eexists. split; [exact Hlogin|].
  split; vm_compute; reflexivity.
Defined.

(** ** The queries *)

(** X12.  In every state the server reaches, [GET /tracking-data] lists one
    object per tracking session and one per presence, in the order of the
    Maps: the object is the connection id, under [officerId] for a session
    and under [id] for a presence, followed by the properties of the
    session or presence, none of them lost or overwritten by the tag. *)
Theorem tracking_data_tags_entries :
  forall history : list (env * input),
    let st := run init history in
    fst (tracking_data st)
      = map (fun kv => ("officerId", VStr (fst kv)) :: snd kv) (activeTracking st)
    /\ snd (tracking_data st)
      = map (fun kv => ("id", VStr (fst kv)) :: snd kv) (connectedOfficers st).
Proof.
  intros history st. destruct (reachable_wf history) as [_ _ _ _ Hp Hse].
  fold st in Hp, Hse. unfold tracking_data, JSMap.entries. cbn [fst snd].
  split; apply map_ext_in; intros [id x] Hin; cbn [fst snd].
  - rewrite Forall_forall in Hse. specialize (Hse _ Hin). cbn [snd] in Hse.
    apply (spread_fresh x [("officerId", VStr id)]); rewrite Hse.
    + repeat constructor; cbn; intuition discriminate.
    + cbn. intuition (subst; discriminate).
  - rewrite Forall_forall in Hp. specialize (Hp _ Hin). cbn [snd] in Hp.
    apply (spread_fresh x [("id", VStr id)]); rewrite Hp.
    + repeat constructor; cbn; intuition discriminate.
    + cbn. intuition (subst; discriminate).
Qed.

Lemma tracking_data_tags_entries_witness :
  map (fun o => (Obj.get o "officerId", Obj.get o "alertId", Obj.get o "status"))
      (fst (tracking_data Scenario.reached))
    = [(VStr "sock-3", VUndefined, VStr "tracking");
       (VStr "sock-1", VStr "CAM-ALERT-1700000000000-k3j9x0a1b", VStr "tracking")]
  /\ fst (tracking_data Scenario.reached)
     = map (fun kv => ("officerId", VStr (fst kv)) :: snd kv)
           (activeTracking Scenario.reached).
Proof.
  split; [vm_compute; reflexivity|].
  exact (proj1 (tracking_data_tags_entries Scenario.history)).
Defined.

(** X13.  In every state the server reaches, the read-only endpoints and
    the snapshots agree: the counts of [GET /alerts] are the lengths of
    the lists it returns and the alert counts of [GET /health], at most
    [MAX_ALERTS] each; the lists are those a new connection is sent; the
    sessions of [GET /alerts] are those of [GET /tracking-data] without
    the connection tag; and the tracking and officer counts of
    [GET /health] are the numbers of objects [GET /tracking-data] lists. *)
Theorem queries_agree :
  forall (history : list (env * input)) (process_uptime : float) (clients : nat)
         (now id : string),
    let st := run init history in
    let alerts := get_alerts st in
    let h := health process_uptime clients now st in
    camera_count alerts = List.length (camera_data alerts)
    /\ sos_count alerts = List.length (sos_data alerts)
    /\ cameraAlertCount h = camera_count alerts
    /\ sosAlertCount h = sos_count alerts
    /\ (camera_count alerts <= MAX_ALERTS)%nat
    /\ (sos_count alerts <= MAX_ALERTS)%nat
    /\ connection id st
       = (st, [(ToSocket id, all_camera_alerts (camera_data alerts));
               (ToSocket id, all_sos_alerts (sos_data alerts))])
    /\ tracking_sessions alerts = map (@tl (string * value)) (fst (tracking_data st))
    /\ activeTrackingCount h = List.length (fst (tracking_data st))
    /\ connectedOfficersCount h = List.length (snd (tracking_data st)).
Proof.
  intros history process_uptime clients now id st alerts h.
  assert (Hcap : capped st) by (apply run_capped, capped_init).
  destruct Hcap as [Hc Hs].
  destruct (reachable_wf history) as [_ _ _ _ Hp Hse]. fold st in Hp, Hse.
  do 4 (split; [reflexivity|]).
  split; [exact Hc|]. split; [exact Hs|]. split; [reflexivity|].
  split.
  - cbn [alerts get_alerts tracking_sessions]. unfold tracking_data, JSMap.entries, JSMap.values.
    cbn [fst]. rewrite map_map. apply map_ext_in. intros [k x] Hin. cbn [fst snd].
    rewrite Forall_forall in Hse. specialize (Hse _ Hin). cbn [snd] in Hse.
    rewrite (spread_fresh x [("officerId", VStr k)]); [reflexivity| |]; rewrite Hse.
    + repeat constructor; cbn; intuition discriminate.
    + cbn. intuition (subst; discriminate).
  - cbn [h health activeTrackingCount connectedOfficersCount].
    unfold tracking_data, JSMap.entries, JSMap.keys. cbn [fst snd].
    rewrite !length_map. now split.
Qed.

Lemma queries_agree_witness :
  camera_count (get_alerts Scenario.reached) = 2%nat
  /\ activeTrackingCount (health 12.5 3 "2023-11-14T22:15:00.000Z" Scenario.reached) = 2%nat
  /\ tracking_sessions (get_alerts Scenario.reached)
     = map (@tl (string * value)) (fst (tracking_data Scenario.reached)).
Proof.
  split; [vm_compute; reflexivity|]. split; [vm_compute; reflexivity|].
  destruct (queries_agree Scenario.history 12.5 3 "2023-11-14T22:15:00.000Z" "sock-7")
    as (_ & _ & _ & _ & _ & _ & _ & H & _).
  exact H.
Defined.

(** ** Alert ids *)

Lemma append_inj_l (p x y : string) : (p ++ x = p ++ y)%string -> x = y.
Proof.
  induction p as [|c r IH]; cbn; [auto|]. intros H. injection H as H. auto.
Qed.

Lemma digits_no_dash (d : Decimal.uint) :
  forall c, In c (list_ascii_of_string (NilEmpty.string_of_uint d)) -> c <> "-"%char.
Proof.
  induction d; cbn; intros c; try contradiction;
    (intros [<-|H]; [discriminate|now apply IHd]).
Qed.

Lemma split_at_dash (a b r r' : string) :
  (forall c, In c (list_ascii_of_string a) -> c <> "-"%char) ->
  (forall c, In c (list_ascii_of_string b) -> c <> "-"%char) ->
  (a ++ String "-" r = b ++ String "-" r')%string -> a = b /\ r = r'.
Proof.
  revert b. induction a as [|x a IH]; intros [|y b] Ha Hb H; cbn in H.
  - injection H as ->. now split.
  - injection H as <- _. exfalso. apply (Hb "-"%char); [now left|reflexivity].
  - injection H as -> _. exfalso. apply (Ha "-"%char); [now left|reflexivity].
  - injection H as -> H.
    destruct (IH b) as [-> ->]; [| |exact H|now split].
    + intros c Hc. apply Ha. now right.
    + intros c Hc. apply Hb. now right.
Qed.

Lemma N_to_uint_nonnil (n : N) : N.to_uint n <> Decimal.Nil.
Proof.
  destruct n as [|p]; [discriminate|]. apply DecimalPos.Unsigned.to_uint_nonnil.
Qed.

Lemma of_nat_digits_N (n : N) :
  Str.of_nat_digits (Z.of_N n) = NilEmpty.string_of_uint (N.to_uint n).
Proof.
  unfold Str.of_nat_digits, NilZero.string_of_uint. rewrite N2Z.id.
  destruct (N.to_uint n) eqn:E; try reflexivity.
  now apply N_to_uint_nonnil in E.
Qed.

(** X14.  Two alerts of one kind get the same id exactly when they were
    built in the same millisecond with the same random suffix: the id
    determines both parts, and nothing else enters it.  Ids are therefore
    distinct as long as the pair (time, suffix) does not repeat, and the
    handlers do not check that it does not. *)
Theorem alert_id_determines_time_and_suffix :
  forall (prefix : string) (e e' : env),
    alert_id prefix e = alert_id prefix e'
    <-> date_now e = date_now e' /\ random36 e = random36 e'.
Proof.
  intros prefix e e'. unfold alert_id. split.
  - intros H. apply append_inj_l in H. rewrite !of_nat_digits_N in H.
    change ("-" ++ random36 e)%string with (String "-" (random36 e)) in H.
    change ("-" ++ random36 e')%string with (String "-" (random36 e')) in H.
    apply split_at_dash in H; try apply digits_no_dash.
    destruct H as [Hd Hr]. split; [|exact Hr].
    apply DecimalN.Unsigned.to_uint_inj.
    apply (f_equal NilEmpty.uint_of_string) in Hd.
    rewrite !NilEmpty.usu in Hd. now injection Hd.
  - intros [-> ->]. reflexivity.
Qed.

Lemma alert_id_determines_time_and_suffix_witness :
  alert_id "CAM-ALERT-" Sample.e0 = "CAM-ALERT-1700000000000-k3j9x0a1b"
  /\ alert_id "CAM-ALERT-" Sample.e0 <> alert_id "CAM-ALERT-" Sample.e1
  /\ alert_id "SOS-ALERT-"
       {| date_now := 1700000000000; random36 := "k3j9x0a1b";
          iso_now := "2023-11-14T22:13:20.999Z"; iso_received := "" |}
     = alert_id "SOS-ALERT-" Sample.e0.
Proof.
  split; [vm_compute; reflexivity|]. split.
  - intros H. apply alert_id_determines_time_and_suffix in H. destruct H as [H _].
    discriminate H.
  - apply alert_id_determines_time_and_suffix. now split.
Defined.

(** ** Presences and sessions *)

Lemma moved_other (o : obj) (klat klng k : string) (lat lng : value) :
  k <> klat -> k <> klng -> Obj.get (moved o klat klng lat lng) k = Obj.get o k.
Proof.
  intros H1 H2. unfold moved. rewrite !get_set_other by congruence. reflexivity.
Qed.

Lemma step_entries_fixed e i st : entries_fixed st -> entries_fixed (fst (step e i st)).
Proof.
  intros H.
  destruct i; cbn [step]; rewrite ?of_http_fst.
  - unfold send_alert. destruct (negb _); [exact H|]. now destruct (camera_alert e a).
  - unfold send_sos_alert. now destruct (negb _).
  - unfold resolve_alert, with_selected.
    match goal with |- context [findIndex ?p ?l] => destruct (findIndex p l) end;
      [|exact H].
    now destruct (JS.strict_eq (Obj.get b "alertType") (VStr "sos")).
  - unfold clear_alerts.
    destruct (JS.strict_eq (Obj.get b "alertType") (VStr "camera")); [exact H|].
    now destruct (JS.strict_eq (Obj.get b "alertType") (VStr "sos")).
  - exact H.
  - destruct (officer_login e id officer st) as [[st' evs]|err] eqn:E; [|exact H].
    destruct (officer_login_inv _ _ _ _ _ _ E) as (? & ? & ? & ? & _ & _ & _ & _ & Hst).
    cbv zeta in Hst. destruct Hst as [-> _]. destruct H as [Hp Hs].
    split; [|exact Hs]. cbn [of_socket fst with_connectedOfficers connectedOfficers].
    apply map_Forall_set; [exact Hp|].
    split; [reflexivity|]. split; apply truthy_or; reflexivity.
  - destruct (start_tracking e id data st) as [[st' evs]|err] eqn:E; [|exact H].
    destruct (start_tracking_inv _ _ _ _ _ _ E) as (? & ? & ? & ? & Hst).
    cbv zeta in Hst. destruct Hst as (_ & -> & _). destruct H as [Hp Hs].
    split; [exact Hp|]. cbn [of_socket fst with_activeTracking activeTracking].
    apply map_Forall_set; [exact Hs|].
    split; [reflexivity|]. split; [now eexists|]. split; [now eexists|].
    apply truthy_or. reflexivity.
  - destruct (update_location id location st) as [[st' evs]|err] eqn:E; [|exact H].
    apply update_location_inv in E. cbn [of_socket fst].
    destruct (JSMap.get (connectedOfficers st) id) as [officer|] eqn:Eo;
      [|destruct E as [-> _]; exact H].
    destruct E as (lat & lng & _ & _ & E). cbv zeta in E. destruct H as [Hp Hs].
    assert (Hp' : Forall (fun kv => presence_fixed (snd kv))
                    (JSMap.set (connectedOfficers st) id (moved officer "lat" "lng" lat lng))).
    { apply map_Forall_set; [exact Hp|]. cbn [snd].
      pose proof (proj1 (Forall_forall _ _) Hp _ (map_get_In _ _ _ Eo)) as Ho.
      cbn [snd] in Ho. unfold presence_fixed in *.
      rewrite !moved_other by discriminate. exact Ho. }
    destruct (JSMap.get (activeTracking st) id) as [tracking|] eqn:Et; destruct E as [-> _];
      split; cbn [with_activeTracking with_connectedOfficers activeTracking connectedOfficers];
      try assumption.
    apply map_Forall_set; [exact Hs|]. cbn [snd].
    pose proof (proj1 (Forall_forall _ _) Hs _ (map_get_In _ _ _ Et)) as Ht.
    cbn [snd] in Ht. unfold session_fixed in *.
    rewrite !moved_other by discriminate. exact Ht.
  - destruct H as [Hp Hs]. split; [exact Hp|]. cbn. now apply map_Forall_delete.
  - destruct H as [Hp Hs]. split; cbn; now apply map_Forall_delete.
Qed.

Lemma run_entries_fixed steps : forall st, entries_fixed st -> entries_fixed (run st steps).
Proof.
  induction steps as [|[e i] rest IH]; intros st H; [exact H|].
  cbn [run]. apply IH. now apply step_entries_fixed.
Qed.

(** X15.  In every state the server reaches, every presence has status
    [available] and a truthy [name] and [unit], and every tracking session
    has status [tracking], numbers (possibly [NaN]) as [alertLat] and
    [alertLng], and a truthy [alertType]: no event ever sets another
    status, and position reports change the coordinates only. *)
Theorem presences_and_sessions_keep_their_status :
  forall history : list (env * input),
    let st := run init history in
    Forall (fun kv => presence_fixed (snd kv)) (connectedOfficers st)
    /\ Forall (fun kv => session_fixed (snd kv)) (activeTracking st).
Proof.
  intros history st. apply run_entries_fixed. split; constructor.
Qed.

Lemma presences_and_sessions_keep_their_status_witness :
  map (fun kv => (Obj.get (snd kv) "status", Obj.get (snd kv) "alertLat"))
      (activeTracking Scenario.reached)
    = [(VStr "tracking", VNum nan); (VStr "tracking", VNum 12.1)]
  /\ Forall (fun kv => session_fixed (snd kv)) (activeTracking Scenario.reached).
Proof.
  split; [vm_compute; reflexivity|].
  exact (proj2 (presences_and_sessions_keep_their_status Scenario.history)).
Defined.

(** ** Replies *)


